(** * ConvertBot: the image format conversion engine of [main.py]

    A shallow embedding of [ImageConverter] (lines 140-352 of [main.py]) and
    of the conversion loop of [handle_conversion_completion].

    The engine orchestrates calls into the Pillow imaging library.  Pillow is
    not part of the program: it is taken as a record [PIL] of operations, each
    of which may raise, and every statement below is proved for an arbitrary
    such record.  The operations are deterministic functions of their
    arguments.  The engine itself runs in a small state-and-exception monad
    whose state holds the [io.BytesIO] object named [output] in the source and
    the sequence of Pillow calls made so far.  An exception is one that
    derives from [Exception], which is what the handlers of the source catch
    and includes [MemoryError].

    Calls to [logger] write to the process log only; they are left out. *)

From Stdlib Require Import ZArith Lia.
From Stdlib.Strings Require Import Byte.
From stdpp Require Import base strings list gmap pretty.

Local Open Scope Z_scope.

(** ** Data model *)

(** [str(e)] of a raised exception. *)
Definition Exception := string.

(** A Pillow image as the engine observes it: [img.width], [img.height],
    [img.mode], the keys of the [img.info] dictionary, and the raw samples. *)
Record Image := mkImage {
  width : Z;
  height : Z;
  mode : string;
  info : gset string;
  samples : list Z
}.

(** [img.size] *)
Definition size (img : Image) : Z * Z := (width img, height img).

(** An [io.BytesIO] object: its contents and its stream position. *)
Record BytesIO := mkBytesIO {
  getvalue : list byte;
  tell : nat
}.

(** [io.BytesIO()] *)
Definition BytesIO_new : BytesIO := mkBytesIO [] 0.

(** [b.seek(0)] *)
Definition seek0 (b : BytesIO) : BytesIO := mkBytesIO (getvalue b) 0.

(** [b.write(data)]: overwrite from the stream position, padding with zero
    bytes when the position lies beyond the end, and advance the position. *)
Definition write (b : BytesIO) (data : list byte) : BytesIO :=
  let padded := getvalue b ++ replicate (tell b - length (getvalue b))%nat x00 in
  mkBytesIO (take (tell b) padded ++ data ++ drop (tell b + length data)%nat padded)
            (tell b + length data)%nat.

(** The keyword arguments of [Image.save] that the engine uses; [None] is an
    absent keyword. *)
Record SaveArgs := mkSaveArgs {
  sa_format : string;
  sa_optimize : option bool;
  sa_quality : option Z;
  sa_sizes : option (list (Z * Z));
  sa_bitmap_format : option string;
  sa_append_images : option (list Image)
}.

(** The Pillow calls the engine can make, with their arguments. *)
Inductive Call :=
| CallCrop (img : Image) (box : Z * Z * Z * Z)
| CallResize (img : Image) (sz : Z * Z)
| CallCopy (img : Image)
| CallConvert (img : Image) (target : string)
| CallNew (md : string) (sz : Z * Z) (color : Z * Z * Z)
| CallSplit (img : Image)
| CallPaste (background img : Image) (mask : option Image)
| CallSave (img : Image) (args : SaveArgs).

(** What a call does: return a value or raise. *)
Inductive Outcome (A : Type) :=
| Returned (a : A)
| Raised (e : Exception).
Arguments Returned {A} a.
Arguments Raised {A} e.

(** The Pillow library.  [pil_resize] is [resize] with
    [Image.Resampling.LANCZOS]; [pil_paste] gives the background after the
    in-place paste; [pil_save] receives the file object and gives it back
    as the call leaves it, whether the call returns or raises. *)
Record PIL := mkPIL {
  pil_crop : Image -> Z * Z * Z * Z -> Outcome Image;
  pil_resize : Image -> Z * Z -> Outcome Image;
  pil_copy : Image -> Outcome Image;
  pil_convert : Image -> string -> Outcome Image;
  pil_new : string -> Z * Z -> Z * Z * Z -> Outcome Image;
  pil_split : Image -> Outcome (list Image);
  pil_paste : Image -> Image -> option Image -> Outcome Image;
  pil_save : Image -> SaveArgs -> BytesIO -> BytesIO * Outcome unit
}.

(** ** The monad *)

Record World := mkWorld {
  output : BytesIO;
  calls : list Call
}.

Definition M (A : Type) : Type := World -> Outcome A * World.

Definition ret {A} (a : A) : M A := fun w => (Returned a, w).

Definition raise {A} (e : Exception) : M A := fun w => (Raised e, w).

Definition bind {A B} (m : M A) (k : A -> M B) : M B :=
  fun w =>
    match m w with
    | (Returned a, w') => k a w'
    | (Raised e, w') => (Raised e, w')
    end.

(** [try: m  except Exception as e: h e].  The state is not rolled back. *)
Definition try_except {A} (m : M A) (h : Exception -> M A) : M A :=
  fun w =>
    match m w with
    | (Returned a, w') => (Returned a, w')
    | (Raised e, w') => h e w'
    end.

Notation "x <- m ;; k" := (bind m (fun x => k))
  (at level 100, m at next level, right associativity).
Notation "m ;;; k" := (bind m (fun _ => k))
  (at level 100, right associativity).

(** A Pillow call that does not touch [output]: log it, then act. *)
Definition invoke {A} (c : Call) (r : Outcome A) : M A :=
  fun w => (r, mkWorld (output w) (calls w ++ [c])).

(** [output.seek(0)] *)
Definition output_seek0 : M unit :=
  fun w => (Returned tt, mkWorld (seek0 (output w)) (calls w)).

(** [output = io.BytesIO()] *)
Definition output_new : M unit :=
  fun w => (Returned tt, mkWorld BytesIO_new (calls w)).

(** The value of [output] at this point. *)
Definition output_get : M BytesIO :=
  fun w => (Returned (output w), w).

(** [x in [s1, ..., sn]] on strings. *)
Definition str_in (x : string) (l : list string) : bool :=
  existsb (String.eqb x) l.

(** ** ImageConverter *)

(** [ImageConverter.FORMAT_MAP] *)
Definition FORMAT_MAP : gmap string (string * string) :=
  <["PNG" := ("PNG", "png")]> (
  <["JPEG" := ("JPEG", "jpg")]> (
  <["WEBP" := ("WEBP", "webp")]> (
  <["BMP" := ("BMP", "bmp")]> (
  <["TIF" := ("TIFF", "tif")]> (
  <["TIFF" := ("TIFF", "tiff")]> (
  <["GIF" := ("GIF", "gif")]> (
  <["ICO" := ("ICO", "ico")]> (
  <["PDF" := ("PDF", "pdf")]> (
  <["JP2" := ("JPEG2000", "jp2")]> (
  <["APNG" := ("PNG", "apng")]> ∅)))))))))).

(** Lines 585-586: the name of the file sent for a converted format;
    [FORMAT_MAP[fmt]] raises [KeyError] for an unknown key. *)
Definition filename (fmt : string) : option string :=
  match FORMAT_MAP !! fmt with
  | Some (pil_format, extension) => Some ("converted." +:+ extension)
  | None => None
  end.

(** Lines 202-212: the list [sizes] chosen from [original_size]. *)
Definition ico_sizes (original_size : Z) : list Z :=
  if original_size >=? 256 then [256]
  else if original_size >=? 128 then [128]
  else if original_size >=? 64 then [64]
  else if original_size >=? 32 then [32]
  else if original_size >=? 16 then [original_size] else [16].

(** Lines 223-227 and 292-296: the box handed to [img.crop]. *)
Definition crop_box (img : Image) : Z * Z * Z * Z :=
  let min_dimension := Z.min (width img) (height img) in
  let left := (width img - min_dimension) `div` 2 in
  let top := (height img - min_dimension) `div` 2 in
  let right := left + min_dimension in
  let bottom := top + min_dimension in
  (left, top, right, bottom).

Section Engine.

Variable pil : PIL.

Definition crop (img : Image) (box : Z * Z * Z * Z) : M Image :=
  invoke (CallCrop img box) (pil_crop pil img box).

Definition resize (img : Image) (sz : Z * Z) : M Image :=
  invoke (CallResize img sz) (pil_resize pil img sz).

Definition copy (img : Image) : M Image :=
  invoke (CallCopy img) (pil_copy pil img).

Definition convert (img : Image) (target : string) : M Image :=
  invoke (CallConvert img target) (pil_convert pil img target).

Definition new (md : string) (sz : Z * Z) (color : Z * Z * Z) : M Image :=
  invoke (CallNew md sz color) (pil_new pil md sz color).

Definition split (img : Image) : M (list Image) :=
  invoke (CallSplit img) (pil_split pil img).

Definition paste (background img : Image) (mask : option Image) : M Image :=
  invoke (CallPaste background img mask) (pil_paste pil background img mask).

(** [img.save(output, **args)]: Pillow writes into [output]; what it wrote
    stays there when it raises. *)
Definition save (img : Image) (args : SaveArgs) : M unit :=
  fun w =>
    let '(out, r) := pil_save pil img args (output w) in
    (r, mkWorld out (calls w ++ [CallSave img args])).

(** Lines 219-251: the body of the loop [for size in sizes], giving the
    image that is appended to [images]. *)
Definition ico_resized (img : Image) (size : Z) : M Image :=
  resized <- (if negb (width img =? size) || negb (height img =? size) then
                square_img <- (if negb (width img =? height img)
                               then crop img (crop_box img)
                               else ret img) ;;
                resize square_img (size, size)
              else copy img) ;;
  if String.eqb (mode resized) "RGBA" then ret resized
  else if String.eqb (mode resized) "RGB" then ret resized
  else if String.eqb (mode resized) "P" then convert resized "RGBA"
  else if str_in (mode resized) ["L"; "LA"] then convert resized "RGBA"
  else convert resized "RGBA".

(** Lines 215-253: the loop, started with the [images] built so far. *)
Fixpoint ico_images (img : Image) (sizes : list Z) (images : list Image)
  : M (list Image) :=
  match sizes with
  | [] => ret images
  | size :: sizes' =>
      resized <- ico_resized img size ;;
      ico_images img sizes' (images ++ [resized])
  end.

(** Lines 197-280: the body of the outer [try] of [_convert_to_ico]. *)
Definition ico_primary (img : Image) : M bool :=
  let original_size := Z.min (width img) (height img) in
  let sizes := ico_sizes original_size in
  images <- ico_images img sizes [] ;;
  match images with
  | first_image :: rest =>
      let sizes_tuple := map (fun im => (width im, height im)) images in
      let save_kwargs :=
        mkSaveArgs "ICO" None None (Some sizes_tuple) (Some "bmp")
                   (if (1 <? length images)%nat then Some rest else None) in
      save first_image save_kwargs ;;;
      output_seek0 ;;;
      ret true
  | [] => ret false
  end.

(** Lines 287-317: the body of the inner [try] of [_convert_to_ico]. *)
Definition ico_fallback (img : Image) : M bool :=
  let simple_size := Z.min 256 (Z.min (width img) (height img)) in
  square_img <- (if negb (width img =? height img)
                 then crop img (crop_box img)
                 else ret img) ;;
  resized <- (if negb (bool_decide (size square_img = (simple_size, simple_size)))
              then resize square_img (simple_size, simple_size)
              else ret square_img) ;;
  resized <- (if negb (str_in (mode resized) ["RGB"; "RGBA"]) then
                if bool_decide ("transparency" ∈ info resized)
                   || str_in (mode resized) ["LA"; "P"]
                then convert resized "RGBA"
                else convert resized "RGB"
              else ret resized) ;;
  save resized (mkSaveArgs "ICO" None None None (Some "bmp") None) ;;;
  output_seek0 ;;;
  ret true.

(** [ImageConverter._convert_to_ico] (the [output] argument is the one of
    the state). *)
Definition _convert_to_ico (img : Image) : M bool :=
  try_except (ico_primary img)
    (fun e => try_except (ico_fallback img) (fun fallback_error => ret false)).

(** [img.split()[-1]] *)
Definition split_last (img : Image) : M Image :=
  bands <- split img ;;
  match last bands with
  | Some band => ret band
  | None => raise "tuple index out of range"
  end.

(** [ImageConverter._convert_to_jpeg] *)
Definition _convert_to_jpeg (img : Image) (pil_format : string) : M bool :=
  try_except
    (img <- (if str_in (mode img) ["RGBA"; "LA"; "P"] then
               background <- new "RGB" (size img) (255, 255, 255) ;;
               img <- (if String.eqb (mode img) "P"
                       then convert img "RGBA" else ret img) ;;
               mask <- (if String.eqb (mode img) "RGBA"
                        then band <- split_last img ;; ret (Some band)
                        else ret None) ;;
               paste background img mask
             else ret img) ;;
     save img (mkSaveArgs pil_format (Some true) (Some 90) None None None) ;;;
     ret true)
    (fun e => ret false).

(** [ImageConverter._convert_to_pdf] *)
Definition _convert_to_pdf (img : Image) : M bool :=
  try_except
    (img <- (if negb (String.eqb (mode img) "RGB")
             then convert img "RGB" else ret img) ;;
     save img (mkSaveArgs "PDF" (Some true) None None None None) ;;;
     ret true)
    (fun e => ret false).

(** Lines 166-187: the body of the [try] of [convert_to_format]. *)
Definition convert_body (img : Image) (format_name : string)
  : M (bool * BytesIO * string) :=
  match FORMAT_MAP !! format_name with
  | None =>
      ret (false, BytesIO_new, "Неподдерживаемый формат: " +:+ format_name)
  | Some (pil_format, extension) =>
      output_new ;;;
      converted_img <-
        (if String.eqb format_name "ICO" then _convert_to_ico img
         else if String.eqb format_name "JPEG" then _convert_to_jpeg img pil_format
         else if String.eqb format_name "PDF" then _convert_to_pdf img
         else
           save img (mkSaveArgs pil_format (Some true) None None None None) ;;;
           ret true) ;;
      if negb converted_img then
        ret (false, BytesIO_new, "Не удалось конвертировать в " +:+ format_name)
      else
        output_seek0 ;;;
        out <- output_get ;;
        ret (true, out, "")
  end.

(** [ImageConverter.convert_to_format]: [(success, buffer, error_message)]. *)
Definition convert_to_format (img : Image) (format_name : string)
  : M (bool * BytesIO * string) :=
  try_except (convert_body img format_name)
    (fun e => ret (false, BytesIO_new, "Ошибка конвертации: " +:+ e)).

(** A reference for the statements about the loop of
    [handle_conversion_completion], not the loop itself: the calls of
    [convert_to_format] that the loop makes when nothing stops it, one per
    format, in order, on the same image.  The loop, with the messages it
    sends between the calls and the exceptions they raise, is
    [conversion_loop] below. *)
Fixpoint convert_batch (img : Image) (selected_formats : list string)
  : M (list (bool * BytesIO * string)) :=
  match selected_formats with
  | [] => ret []
  | fmt :: rest =>
      r <- convert_to_format img fmt ;;
      rs <- convert_batch img rest ;;
      ret (r :: rs)
  end.

End Engine.

(** The state in which a call of the engine starts: no Pillow call made
    yet. *)
Definition start : World := mkWorld BytesIO_new [].

(** ** Definitions used in the statements *)

(** [m] never raises. *)
Definition returns {A} (m : M A) : Prop :=
  forall w, exists a w', m w = (Returned a, w').


(** The closed set of format identifiers. *)
Definition closed_set : list string :=
  ["PNG"; "JPEG"; "WEBP"; "BMP"; "TIF"; "TIFF"; "GIF"; "ICO"; "PDF"; "JP2"; "APNG"].

(** The identifiers served by the generic encoder. *)
Definition generic_formats : list string :=
  ["PNG"; "WEBP"; "BMP"; "TIF"; "TIFF"; "GIF"; "JP2"; "APNG"].

(** The threshold table in the words of the specification. *)
Definition spec_icon_size (base : Z) : Z :=
  if 256 <=? base then 256
  else if 128 <=? base then 128
  else if 64 <=? base then 64
  else if 32 <=? base then 32
  else Z.max base 16.

(** The [save] arguments of the primary path for one resized image. *)
Definition primary_args (resized : Image) : SaveArgs :=
  mkSaveArgs "ICO" None None (Some [(width resized, height resized)])
             (Some "bmp") None.

(** The [save] arguments of the fallback. *)
Definition fallback_args : SaveArgs :=
  mkSaveArgs "ICO" None None None (Some "bmp") None.

(** [m] only appends to the sequence of Pillow calls. *)
Definition extends {A} (m : M A) : Prop :=
  forall w, exists rest, calls (m w).2 = calls w ++ rest.

(** The number of [save] calls in a sequence of calls. *)
Fixpoint saves (cs : list Call) : nat :=
  match cs with
  | [] => 0
  | CallSave _ _ :: cs' => S (saves cs')
  | _ :: cs' => saves cs'
  end.

(** [m] makes at most [n] calls of [save]. *)
Definition at_most (n : nat) {A} (m : M A) : Prop :=
  forall w, exists rest,
    calls (m w).2 = calls w ++ rest /\ (saves rest <= n)%nat.

(** The mode the fallback converts to, when it converts. *)
Definition fallback_target (resized : Image) : string :=
  if bool_decide ("transparency" ∈ info resized)
     || str_in (mode resized) ["LA"; "P"]
  then "RGBA" else "RGB".

(** The Pillow calls of a fallback run that reaches its [save], given the
    images the steps produced: a crop only for a non-square image, a resize
    only when the square does not already have the target size, a
    conversion only when the mode is neither RGB nor RGBA. *)
Definition fallback_calls (img square resized final : Image) : list Call :=
  let simple_size := Z.min 256 (Z.min (width img) (height img)) in
  (if width img =? height img then []
   else [CallCrop img (crop_box img)]) ++
  (if bool_decide (size square = (simple_size, simple_size)) then []
   else [CallResize square (simple_size, simple_size)]) ++
  (if str_in (mode resized) ["RGB"; "RGBA"] then []
   else [CallConvert resized (fallback_target resized)]) ++
  [CallSave final fallback_args].

(** The mode of the image the fallback encodes, in the words of the
    specification: RGBA if the source mode is LA or Palette or the image has
    transparency metadata, else RGB. *)
Definition spec_fallback_mode (img : Image) : string :=
  if str_in (mode img) ["LA"; "P"] || bool_decide ("transparency" ∈ info img)
  then "RGBA" else "RGB".

(** The [save] arguments of the JPEG encoder. *)
Definition jpeg_args (pil_format : string) : SaveArgs :=
  mkSaveArgs pil_format (Some true) (Some 90) None None None.

(** The inputs the specification has composited through a blend mask:
    those whose mode carries alpha, and palette images with a transparency
    index. *)
Definition spec_jpeg_masked (img : Image) : bool :=
  str_in (mode img) ["RGBA"; "LA"]
  || (String.eqb (mode img) "P" && bool_decide ("transparency" ∈ info img)).

(** The inputs the specification has flattened without compositing:
    palette images without a transparency index. *)
Definition spec_jpeg_plain (img : Image) : bool :=
  String.eqb (mode img) "P" && negb (bool_decide ("transparency" ∈ info img)).

(** Some call pastes through a mask. *)
Definition mask_used (cs : list Call) : bool :=
  existsb (fun c => match c with CallPaste _ _ (Some _) => true | _ => false end) cs.

(** Some call pastes. *)
Definition pasted (cs : list Call) : bool :=
  existsb (fun c => match c with CallPaste _ _ _ => true | _ => false end) cs.

(** ** A small Pillow for running the engine on concrete inputs *)

Module Toy.

(** Bytes that stand for an encoded image: the dimensions, low byte only. *)
Definition payload (img : Image) : list byte :=
  match Byte.of_N (Z.to_N (width img `mod` 256)),
        Byte.of_N (Z.to_N (height img `mod` 256)) with
  | Some w, Some h => [w; h]
  | _, _ => []
  end.

(** The four bytes every ICO stream starts with. *)
Definition ico_magic : list byte := [x00; x00; x01; x00].

Definition bands (img : Image) : list Image :=
  map (fun _ => mkImage (width img) (height img) "L" ∅ (samples img))
      (String.list_ascii_of_string (mode img)).

(** Every operation succeeds and does the obvious thing to the attributes
    the engine looks at; [save] writes the payload, after the magic number
    for an ICO. *)
Definition ok : PIL := {|
  pil_crop img box :=
    let '(l, t, r, b) := box in
    Returned (mkImage (r - l) (b - t) (mode img) (info img) (samples img));
  pil_resize img sz :=
    Returned (mkImage (fst sz) (snd sz) (mode img) (info img) (samples img));
  pil_copy img := Returned img;
  pil_convert img target :=
    Returned (mkImage (width img) (height img) target (info img) (samples img));
  pil_new md sz color := Returned (mkImage (fst sz) (snd sz) md ∅ []);
  pil_split img := Returned (bands img);
  pil_paste background img mask := Returned background;
  pil_save img args fp :=
    if String.eqb (sa_format args) "ICO"
    then (write (write fp ico_magic) (payload img), Returned tt)
    else (write fp (payload img), Returned tt)
|}.

(** As [ok], but an ICO [save] that is given the [sizes] keyword raises
    after it has written the magic number. *)
Definition sizes_rejected : PIL := {|
  pil_crop := pil_crop ok;
  pil_resize := pil_resize ok;
  pil_copy := pil_copy ok;
  pil_convert := pil_convert ok;
  pil_new := pil_new ok;
  pil_split := pil_split ok;
  pil_paste := pil_paste ok;
  pil_save img args fp :=
    match sa_sizes args with
    | Some _ => (write fp ico_magic, Raised "sizes not supported")
    | None => pil_save ok img args fp
    end
|}.

(** As [ok], but [resize] raises on a 16-bit greyscale image. *)
Definition lanczos_rejects : PIL := {|
  pil_crop := pil_crop ok;
  pil_resize img sz :=
    if String.eqb (mode img) "I;16" then Raised "image has wrong mode"
    else pil_resize ok img sz;
  pil_copy := pil_copy ok;
  pil_convert := pil_convert ok;
  pil_new := pil_new ok;
  pil_split := pil_split ok;
  pil_paste := pil_paste ok;
  pil_save := pil_save ok
|}.

(** Every [save] raises before it writes anything. *)
Definition save_fails : PIL := {|
  pil_crop := pil_crop ok;
  pil_resize := pil_resize ok;
  pil_copy := pil_copy ok;
  pil_convert := pil_convert ok;
  pil_new := pil_new ok;
  pil_split := pil_split ok;
  pil_paste := pil_paste ok;
  pil_save img args fp := (fp, Raised "encoder error")
|}.

Definition rgb (w h : Z) : Image := mkImage w h "RGB" ∅ [].
Definition rgba (w h : Z) : Image := mkImage w h "RGBA" ∅ [].
Definition gray16 (w h : Z) : Image := mkImage w h "I;16" ∅ [].
Definition gray_alpha (w h : Z) : Image := mkImage w h "LA" ∅ [].
Definition palette (w h : Z) : Image := mkImage w h "P" ∅ [].

End Toy.

(** ** What kinds of call an encoder makes *)

(** [m] appends only calls satisfying [P]. *)
Definition emits (P : Call -> bool) {A} (m : M A) : Prop :=
  forall w, exists rest,
    calls (m w).2 = calls w ++ rest /\ forallb P rest = true.

(** A crop or a resize. *)
Definition is_geometry (c : Call) : bool :=
  match c with
  | CallCrop _ _ | CallResize _ _ => true
  | _ => false
  end.

(** ** Relations every step of a computation keeps *)

(** The final state of [m] is related to its initial state by [R]. *)
Definition preserves (R : World -> World -> Prop) {A} (m : M A) : Prop :=
  forall w, R w (m w).2.

(** [output] holds the same bytes at the same position. *)
Definition same_output (w w' : World) : Prop := output w' = output w.

(** From [w] to [w'] the calls end in a [save] of [im] that was handed the
    file object [o], returned, and left it as [out]. *)
Definition saved_last (pil : PIL) (w w' : World) (o out : BytesIO) : Prop :=
  exists rest im args,
    calls w' = calls w ++ rest ++ [CallSave im args] /\
    pil_save pil im args o = (out, Returned tt).

(** A [save] that raises has left the file object as it found it. *)
Definition save_atomic (pil : PIL) : Prop :=
  forall im args o out e, pil_save pil im args o = (out, Raised e) -> out = o.

(** ** The icon encoder with a Pillow that does what it is asked *)

(** What the engine relies on: a crop has the size of its box, a resize the
    size asked for, a conversion the mode asked for, and none of them nor a
    copy changes anything else the engine looks at. *)
Record well_behaved (pil : PIL) : Prop := {
  crop_spec : forall im l t r b im',
    pil_crop pil im (l, t, r, b) = Returned im' ->
    size im' = (r - l, b - t) /\ mode im' = mode im /\ info im' = info im;
  resize_spec : forall im sz im',
    pil_resize pil im sz = Returned im' ->
    size im' = sz /\ mode im' = mode im /\ info im' = info im;
  copy_spec : forall im im',
    pil_copy pil im = Returned im' ->
    size im' = size im /\ mode im' = mode im /\ info im' = info im;
  convert_spec : forall im target im',
    pil_convert pil im target = Returned im' ->
    size im' = size im /\ mode im' = target
}.

(** The mode is RGB or RGBA. *)
Definition icon_mode (md : string) : Prop := md = "RGB" \/ md = "RGBA".

(** ** Compositing *)

(** A call that builds or blends a background. *)
Definition is_composite (c : Call) : bool :=
  match c with
  | CallNew _ _ _ | CallSplit _ | CallPaste _ _ _ => true
  | _ => false
  end.

(** ** The bot around the converter *)

(** [Config], as the module-level instance [config = Config()] holds it once
    [__post_init__] has replaced the two [None] defaults. *)
Record Config := mkConfig {
  MAX_FILE_SIZE : Z;
  MAX_IMAGE_DIMENSION : Z;
  SUPPORTED_FORMATS : list string;
  KEYBOARD_ROW_SIZE : Z;
  ICO_SIZES : list Z
}.

Definition config : Config :=
  mkConfig (20 * 1024 * 1024) 4096
    ["PNG"; "JPEG"; "WEBP"; "BMP"; "TIF"; "TIFF";
     "GIF"; "ICO"; "PDF"; "JP2"; "APNG"]
    3 [256].

(** Python's truth value of [img.format]: [None] and the empty string are
    false. *)
Definition format_known (format : option string) : bool :=
  match format with
  | Some s => negb (String.eqb s "")
  | None => false
  end.

(** [ImageValidator.validate_image].  [img.format] is passed beside the
    image, whose record holds what the converter reads.  Nothing in the body
    raises on integer dimensions, so the handler of the source is not
    reached. *)
Definition validate_image (img : Image) (format : option string)
  : bool * option string :=
  let '(width, height) := size img in
  if (width >? MAX_IMAGE_DIMENSION config) || (height >? MAX_IMAGE_DIMENSION config)
  then (false,
        Some ("Изображение слишком большое. Максимальный размер: "
              +:+ pretty (MAX_IMAGE_DIMENSION config) +:+ "x"
              +:+ pretty (MAX_IMAGE_DIMENSION config)))
  else if (width <? 1) || (height <? 1)
  then (false, Some "Некорректные размеры изображения")
  else if negb (format_known format)
  then (false, Some "Не удалось определить формат изображения")
  else (true, None).

(** [KeyboardButton(text=...)] *)
Record KeyboardButton := mkKeyboardButton { text : string }.

(** [ReplyKeyboardMarkup(keyboard=..., resize_keyboard=...,
    one_time_keyboard=...)] *)
Record ReplyKeyboardMarkup := mkReplyKeyboardMarkup {
  keyboard : list (list KeyboardButton);
  resize_keyboard : bool;
  one_time_keyboard : bool
}.

(** Lines 364-368: the loop of [create_formats_keyboard] over the formats
    still to place, with the rows finished so far and the row being filled;
    [row_size] is [config.KEYBOARD_ROW_SIZE]. *)
Fixpoint keyboard_loop (row_size : Z) (all_formats : list string)
    (rows : list (list KeyboardButton)) (row : list KeyboardButton)
  : list (list KeyboardButton) * list KeyboardButton :=
  match all_formats with
  | [] => (rows, row)
  | fmt :: rest =>
      let row := row ++ [mkKeyboardButton fmt] in
      if Z.of_nat (length row) =? row_size
      then keyboard_loop row_size rest (rows ++ [row]) []
      else keyboard_loop row_size rest rows row
  end.

(** [KeyboardBuilder.create_formats_keyboard], for a given row size. *)
Definition create_formats_keyboard_sized (row_size : Z) (formats : list string)
  : ReplyKeyboardMarkup :=
  let all_formats := formats ++ ["✅ ГОТОВО"] in
  let '(rows, row) := keyboard_loop row_size all_formats [] [] in
  let rows := match row with [] => rows | _ :: _ => rows ++ [row] end in
  mkReplyKeyboardMarkup rows true false.

(** [KeyboardBuilder.create_formats_keyboard] *)
Definition create_formats_keyboard (formats : list string)
  : ReplyKeyboardMarkup :=
  create_formats_keyboard_sized (KEYBOARD_ROW_SIZE config) formats.

(** The decision of [formats_handler] (lines 512-537) on [text], which is
    [message.text.strip().upper()], and [selected], which is
    [data.get("selected_formats", [])]; the replies are left out. *)
Inductive FormatsChoice :=
| StartConversion
| RejectFormat
| AddFormat (selected : list string)
| AlreadySelected.

Definition formats_choice (text : string) (selected : list string)
  : FormatsChoice :=
  if String.eqb text "✅ ГОТОВО" then StartConversion
  else if negb (str_in text (SUPPORTED_FORMATS config)) then RejectFormat
  else if negb (str_in text selected) then AddFormat (selected ++ [text])
  else AlreadySelected.

(** The selection once [formats_handler] has looked at the message: the
    list stored under [selected_formats] after it, and for the finishing
    button the list handed on to [handle_conversion_completion]. *)
Definition selected_after (selected : list string) (text : string)
  : list string :=
  match formats_choice text selected with
  | AddFormat selected' => selected'
  | _ => selected
  end.

(** A photo size or a document, by its [file_size] ([None] when Telegram
    does not give it). *)
Record FileInfo := mkFileInfo { file_size : option Z }.

(** A message, by the two attributes [FileSizeMiddleware] reads; [None] is
    an absent attribute or the value [None]. *)
Record Event := mkEvent {
  photo : option (list FileInfo);
  document : option FileInfo
}.

(** [f.file_size and f.file_size > config.MAX_FILE_SIZE] *)
Definition over_limit (f : FileInfo) : bool :=
  match file_size f with
  | Some n => negb (n =? 0) && (n >? MAX_FILE_SIZE config)
  | None => false
  end.

(** What the middleware does with a message: reply and stop, or pass the
    message on to the handler. *)
Inductive Verdict :=
| Reject (reply : string)
| CallHandler.

Definition too_large_reply : string :=
  "⛔ Файл слишком большой. Максимальный размер: "
  +:+ pretty (MAX_FILE_SIZE config `div` (1024 * 1024)) +:+ " МБ".

(** [FileSizeMiddleware.__call__] *)
Definition FileSizeMiddleware (event : Event) : Verdict :=
  match photo event with
  | Some (p :: ps) =>
      match last (p :: ps) with
      | Some largest =>
          if over_limit largest then Reject too_large_reply else CallHandler
      | None => CallHandler
      end
  | _ =>
      match document event with
      | Some doc =>
          if over_limit doc then Reject too_large_reply else CallHandler
      | None => CallHandler
      end
  end.

(** The file whose size the middleware looks at: the last photo size when
    there is one, else the document. *)
Definition checked_file (event : Event) : option FileInfo :=
  match photo event with
  | Some (p :: ps) => last (p :: ps)
  | _ => document event
  end.

(** ** The conversion handler *)

(** What [handle_conversion_completion] does to the outside, in order:
    [message.reply] (with or without [ReplyKeyboardRemove]),
    [conversion_msg.edit_text], [message.reply_document], [state.clear] and
    [Image.open]. *)
Inductive Sent :=
| SentReply (text : string) (remove_keyboard : bool)
| SentEdit (message_id : nat) (text : string)
| SentDocument (content : list byte) (file_name caption : string)
| StateClear
| OpenImage (content : list byte).

(** Telegram, the state storage and the image decoder: each operation sees
    everything done so far and returns (a reply returns the identifier of
    the new message) or raises. *)
Record Telegram := mkTelegram {
  tg_reply : list Sent -> string -> bool -> Outcome nat;
  tg_edit_text : list Sent -> nat -> string -> Outcome unit;
  tg_reply_document : list Sent -> list byte -> string -> string -> Outcome unit;
  tg_state_clear : list Sent -> Outcome unit;
  tg_open : list Sent -> list byte -> Outcome Image
}.

(** The dictionary [data] of the conversation, by the two keys the handler
    reads; [None] is a missing key. *)
Record Data := mkData {
  data_selected_formats : option (list string);
  data_photo_bytes : option (list byte)
}.

(** The state of the handler: the state of the converter, what was done to
    the outside, and the local variable [conversion_msg], which the
    exception handler reads after the loop may have rebound it. *)
Record BotWorld := mkBotWorld {
  engine : World;
  sent : list Sent;
  conversion_msg : nat
}.

Module Bot.

Definition B (A : Type) : Type := BotWorld -> Outcome A * BotWorld.

Definition ret {A} (a : A) : B A := fun s => (Returned a, s).

Definition raise {A} (e : Exception) : B A := fun s => (Raised e, s).

Definition bind {A C} (m : B A) (k : A -> B C) : B C :=
  fun s =>
    match m s with
    | (Returned a, s') => k a s'
    | (Raised e, s') => (Raised e, s')
    end.

Definition try_except {A} (m : B A) (h : Exception -> B A) : B A :=
  fun s =>
    match m s with
    | (Returned a, s') => (Returned a, s')
    | (Raised e, s') => h e s'
    end.

(** [try: m  finally: f]: [f] runs in either case, and a raise in [f]
    replaces the outcome of [m]. *)
Definition try_finally {A} (m : B A) (f : B unit) : B A :=
  fun s =>
    match m s with
    | (r, s') =>
        match f s' with
        | (Returned _, s'') => (r, s'')
        | (Raised e, s'') => (Raised e, s'')
        end
    end.

(** An operation on the outside: record it, then act. *)
Definition perform {A} (ev : Sent) (r : list Sent -> Outcome A) : B A :=
  fun s => (r (sent s), mkBotWorld (engine s) (sent s ++ [ev]) (conversion_msg s)).

(** A step of the converter. *)
Definition lift {A} (m : M A) : B A :=
  fun s =>
    let '(r, w) := m (engine s) in
    (r, mkBotWorld w (sent s) (conversion_msg s)).

(** [conversion_msg = m] *)
Definition set_conversion_msg (m : nat) : B unit :=
  fun s => (Returned tt, mkBotWorld (engine s) (sent s) m).

Definition get_conversion_msg : B nat :=
  fun s => (Returned (conversion_msg s), s).

End Bot.

Notation "x <-- m ;; k" := (Bot.bind m (fun x => k))
  (at level 100, m at next level, right associativity).
Notation "m ;;;; k" := (Bot.bind m (fun _ => k))
  (at level 100, right associativity).

(** A line feed. *)
Definition nl : string := String (Ascii.ascii_of_nat 10) "".

(** [sep.join(items)] *)
Fixpoint join (sep : string) (items : list string) : string :=
  match items with
  | [] => ""
  | [x] => x
  | x :: rest => x +:+ sep +:+ join sep rest
  end.

(** Lines 602-609: the final message. *)
Definition result_text (successful_conversions : nat)
    (failed_conversions : list string) : string :=
  let result_text := "🎉 Конвертация завершена!" +:+ nl +:+ nl in
  let result_text :=
    result_text +:+ "✅ Успешно: " +:+ pretty successful_conversions +:+ nl in
  let result_text :=
    match failed_conversions with
    | [] => result_text
    | _ :: _ =>
        result_text
        +:+ "⛔ Неудачно: " +:+ pretty (length failed_conversions) +:+ nl
        +:+ (nl +:+ "🔍 Ошибки:" +:+ nl
             +:+ join nl (map (fun error => "• " +:+ error) failed_conversions))
    end in
  result_text +:+ nl +:+ nl
  +:+ "📤 Отправь новое изображение для следующей конвертации.".

Definition critical_text : string :=
  "⛔ Произошла критическая ошибка при конвертации. "
  +:+ "Проверьте изображение и попробуйте снова.".

Section Handler.

Variable pil : PIL.
Variable tg : Telegram.

(** [await message.reply(text)] *)
Definition reply (text : string) : Bot.B nat :=
  Bot.perform (SentReply text false) (fun h => tg_reply tg h text false).

(** [await message.reply(text, reply_markup=types.ReplyKeyboardRemove())] *)
Definition reply_remove (text : string) : Bot.B nat :=
  Bot.perform (SentReply text true) (fun h => tg_reply tg h text true).

(** [await conversion_msg.edit_text(text)] *)
Definition edit_text (text : string) : Bot.B unit :=
  m <-- Bot.get_conversion_msg ;;
  Bot.perform (SentEdit m text) (fun h => tg_edit_text tg h m text).

(** [await message.reply_document(BufferedInputFile(content,
    filename=file_name), caption=caption)] *)
Definition reply_document (content : list byte) (file_name caption : string)
  : Bot.B unit :=
  Bot.perform (SentDocument content file_name caption)
    (fun h => tg_reply_document tg h content file_name caption).

(** [await state.clear()] *)
Definition state_clear : Bot.B unit :=
  Bot.perform StateClear (tg_state_clear tg).

(** [Image.open(io.BytesIO(photo_bytes))] *)
Definition image_open (photo_bytes : list byte) : Bot.B Image :=
  Bot.perform (OpenImage photo_bytes) (fun h => tg_open tg h photo_bytes).

(** Lines 570-599: the body of the loop for the [i]-th format [fmt] of
    [total], giving the new [successful_conversions] and
    [failed_conversions]. *)
Definition conversion_step (img : Image) (total i : nat) (fmt : string)
    (successful_conversions : nat) (failed_conversions : list string)
  : Bot.B (nat * list string) :=
  let progress :=
    "🔄 Конвертирую в " +:+ fmt +:+ "... (" +:+ pretty i +:+ "/"
    +:+ pretty total +:+ ")" in
  Bot.try_except (edit_text progress)
    (fun _ => m <-- reply progress ;; Bot.set_conversion_msg m) ;;;;
  r <-- Bot.lift (convert_to_format pil img fmt) ;;
  let '(success, output_buffer, error_msg) := r in
  if success then
    Bot.try_except
      (extension <--
         match FORMAT_MAP !! fmt with
         | Some (pil_format, extension) => Bot.ret extension
         | None => Bot.raise ("'" +:+ fmt +:+ "'")
         end ;;
       let filename := "converted." +:+ extension in
       reply_document (getvalue output_buffer) filename
         ("✅ Конвертация в " +:+ fmt +:+ " завершена") ;;;;
       Bot.ret (S successful_conversions, failed_conversions))
      (fun e =>
         Bot.ret (successful_conversions,
                  failed_conversions ++ [fmt +:+ ": ошибка отправки"]))
  else
    Bot.ret (successful_conversions,
             failed_conversions ++ [fmt +:+ ": " +:+ error_msg]).

(** Lines 568-599: the loop over the formats from the [i]-th on. *)
Fixpoint conversion_loop (img : Image) (total i : nat) (formats : list string)
    (successful_conversions : nat) (failed_conversions : list string)
  : Bot.B (nat * list string) :=
  match formats with
  | [] => Bot.ret (successful_conversions, failed_conversions)
  | fmt :: rest =>
      r <-- conversion_step img total i fmt
              successful_conversions failed_conversions ;;
      conversion_loop img total (S i) rest r.1 r.2
  end.

(** [handle_conversion_completion] *)
Definition handle_conversion_completion (data : Data) : Bot.B unit :=
  let selected_formats := default [] (data_selected_formats data) in
  match selected_formats with
  | [] =>
      reply "⛔ Ты не выбрал ни одного формата для конвертации." ;;;;
      Bot.ret tt
  | _ :: _ =>
      match data_photo_bytes data with
      | None | Some [] =>
          reply "⛔ Данные изображения потеряны. Отправь изображение заново." ;;;;
          state_clear
      | Some photo_bytes =>
          m <-- reply_remove
                  ("🔄 Начинаю конвертацию в "
                   +:+ pretty (length selected_formats) +:+ " формат(ов)...") ;;
          Bot.set_conversion_msg m ;;;;
          Bot.try_finally
            (Bot.try_except
               (img <-- image_open photo_bytes ;;
                r <-- conversion_loop img (length selected_formats) 1
                        selected_formats 0%nat [] ;;
                let text := result_text r.1 r.2 in
                Bot.try_except (edit_text text)
                  (fun _ => reply text ;;;; Bot.ret tt))
               (fun e =>
                  Bot.try_except (edit_text critical_text)
                    (fun _ => reply critical_text ;;;; Bot.ret tt)))
            state_clear
      end
  end.

End Handler.

(** A toy outside world: every operation returns, a reply returns the
    number of things done so far as the identifier of the new message, and
    [Image.open] gives a 300x200 RGB image. *)
Definition toy_telegram : Telegram := {|
  tg_reply h text remove := Returned (length h);
  tg_edit_text h m text := Returned tt;
  tg_reply_document h content file_name caption := Returned tt;
  tg_state_clear h := Returned tt;
  tg_open h content := Returned (Toy.rgb 300 200)
|}.

(** As [toy_telegram], but no message can be edited and no reply without
    [ReplyKeyboardRemove] gets through. *)
Definition mute_telegram : Telegram := {|
  tg_reply h text remove :=
    if remove then Returned (length h) else Raised "network error";
  tg_edit_text h m text := Raised "message can't be edited";
  tg_reply_document h content file_name caption := Returned tt;
  tg_state_clear h := Returned tt;
  tg_open h content := Returned (Toy.rgb 300 200)
|}.

(** The state in which a handler starts. *)
Definition bot_start : BotWorld := mkBotWorld start [] 0.

(** [m] does to the outside only things satisfying [P]. *)
Definition does (P : Sent -> bool) {A} (m : Bot.B A) : Prop :=
  forall s, exists rest,
    sent (m s).2 = sent s ++ rest /\ forallb P rest = true.

(** Anything but [state.clear]. *)
Definition not_clear (ev : Sent) : bool :=
  match ev with
  | StateClear => false
  | _ => true
  end.

(** The first message of a conversion. *)
Definition start_text (selected_formats : list string) : string :=
  "🔄 Начинаю конвертацию в " +:+ pretty (length selected_formats)
  +:+ " формат(ов)...".

(** ** The loop of the handler and the batch of the converter *)

(** [m] leaves the converter's state alone. *)
Definition keeps_engine {A} (m : Bot.B A) : Prop :=
  forall s, engine (m s).2 = engine s.

(** A failed entry of the final message starts with the format. *)
Definition entry_of (fmt entry : string) : Prop :=
  exists reason, entry = fmt +:+ ": " +:+ reason.

(** The number of successful results. *)
Fixpoint successes (results : list (bool * BytesIO * string)) : nat :=
  match results with
  | [] => 0
  | (true, _, _) :: rest => S (successes rest)
  | (false, _, _) :: rest => successes rest
  end.



(** ** The handler without a selection or without the photo *)

Definition nothing_selected_text : string :=
  "⛔ Ты не выбрал ни одного формата для конвертации.".

Definition photo_lost_text : string :=
  "⛔ Данные изображения потеряны. Отправь изображение заново.".

(** ** Reasoning about the monad *)

Lemma returns_ret {A} (a : A) : returns (ret a).
Proof. intros w. exists a, w. reflexivity. Qed.

Lemma returns_bind {A B} (m : M A) (k : A -> M B) :
  returns m -> (forall a, returns (k a)) -> returns (bind m k).
Proof.
  intros Hm Hk w. unfold bind.
  destruct (Hm w) as (a & w1 & ->). apply Hk.
Qed.

(** A [try] whose handler never raises never raises, whatever its body does. *)
Lemma returns_try_except {A} (m : M A) (h : Exception -> M A) :
  (forall e, returns (h e)) -> returns (try_except m h).
Proof.
  intros Hh w. unfold try_except.
  destruct (m w) as [[a|e] w1]; [eauto | apply Hh].
Qed.

Lemma bind_returned {A B} (m : M A) (k : A -> M B) w a w1 :
  m w = (Returned a, w1) -> bind m k w = k a w1.
Proof. intros H. unfold bind. rewrite H. reflexivity. Qed.

Lemma bind_raised {A B} (m : M A) (k : A -> M B) w e w1 :
  m w = (Raised e, w1) -> bind m k w = (Raised e, w1).
Proof. intros H. unfold bind. rewrite H. reflexivity. Qed.

Create HintDb engine.
#[local] Hint Resolve returns_ret returns_bind returns_try_except : engine.

Section EngineFacts.

Variable pil : PIL.

Lemma _convert_to_ico_returns img : returns (_convert_to_ico pil img).
Proof. unfold _convert_to_ico. auto with engine. Qed.

Lemma _convert_to_jpeg_returns img pil_format :
  returns (_convert_to_jpeg pil img pil_format).
Proof. unfold _convert_to_jpeg. auto with engine. Qed.

Lemma _convert_to_pdf_returns img : returns (_convert_to_pdf pil img).
Proof. unfold _convert_to_pdf. auto with engine. Qed.

Lemma convert_to_format_returns img format_name :
  returns (convert_to_format pil img format_name).
Proof. unfold convert_to_format. auto with engine. Qed.

Lemma convert_batch_returns img selected_formats :
  returns (convert_batch pil img selected_formats).
Proof.
  induction selected_formats as [|fmt rest IH]; simpl; auto with engine.
  apply returns_bind; [apply convert_to_format_returns|].
  intros r. apply returns_bind; auto with engine.
Qed.

End EngineFacts.

(** ** Results of [convert_to_format] *)




(** ** The dispatcher *)

Lemma FORMAT_MAP_closed (k : string) :
  k ∉ closed_set -> FORMAT_MAP !! k = None.
Proof.
  unfold closed_set. rewrite !not_elem_of_cons. intros H. destruct_and!.
  unfold FORMAT_MAP. rewrite !lookup_insert_ne by congruence.
  apply lookup_empty.
Qed.

Lemma FORMAT_MAP_keys (k : string) :
  k ∈ closed_set -> is_Some (FORMAT_MAP !! k).
Proof.
  unfold closed_set. rewrite !elem_of_cons, elem_of_nil.
  intros H. repeat (destruct H as [->|H]; [eexists; reflexivity|]). contradiction.
Qed.

(** C8.  For an identifier outside the closed set, [convert_to_format]
    returns the unsupported-format failure with an empty buffer, and the
    state is left as it was: no Pillow call is made, so the image is neither
    read nor modified. *)
Theorem unsupported_format_untouched (pil : PIL) (img : Image)
    (format_name : string) (w : World) :
  format_name ∉ closed_set ->
  convert_to_format pil img format_name w =
    (Returned (false, BytesIO_new, "Неподдерживаемый формат: " +:+ format_name), w).
Proof.
  intros H. unfold convert_to_format, try_except, convert_body.
  rewrite (FORMAT_MAP_closed _ H). reflexivity.
Qed.

(** The identifier XYZ of the specification's example. *)
Lemma unsupported_format_untouched_witness :
  ("XYZ" ∉ closed_set) /\
  convert_to_format Toy.ok (Toy.rgb 300 200) "XYZ" start =
    (Returned (false, BytesIO_new, "Неподдерживаемый формат: XYZ"), start).
Proof.
  assert (H : "XYZ" ∉ closed_set) by compute_done.
  split; [exact H|].
  exact (unsupported_format_untouched Toy.ok (Toy.rgb 300 200) "XYZ" start H).
Defined.

(** What the generic branch does for a Pillow format name: one [save] of
    the image itself into the fresh [output]. *)
Lemma generic_branch pil img format_name pil_format extension w :
  FORMAT_MAP !! format_name = Some (pil_format, extension) ->
  String.eqb format_name "ICO" = false ->
  String.eqb format_name "JPEG" = false ->
  String.eqb format_name "PDF" = false ->
  let args := mkSaveArgs pil_format (Some true) None None None None in
  convert_to_format pil img format_name w =
    match pil_save pil img args BytesIO_new with
    | (out, Returned _) =>
        (Returned (true, seek0 out, ""),
         mkWorld (seek0 out) (calls w ++ [CallSave img args]))
    | (out, Raised e) =>
        (Returned (false, BytesIO_new, "Ошибка конвертации: " +:+ e),
         mkWorld out (calls w ++ [CallSave img args]))
    end.
Proof.
  intros Hmap Hico Hjpeg Hpdf args.
  unfold convert_to_format, try_except, convert_body.
  rewrite Hmap, Hico, Hjpeg, Hpdf.
  unfold bind, output_new, save, output_seek0, output_get, ret. simpl.
  fold args. destruct (pil_save pil img args BytesIO_new) as [out [[]|e]]; reflexivity.
Qed.

(** C9.  For each identifier of the generic encoder, [convert_to_format]
    makes exactly one Pillow call, a [save] of the input image itself in the
    mapped container with [optimize=True]: no crop, no resize, no conversion.
    When that call returns, the result is the stream it wrote; when it
    raises, the result is at once the failure carrying its message, with no
    second call. *)
Theorem generic_encoder_direct (pil : PIL) (img : Image)
    (format_name : string) (w : World) :
  format_name ∈ generic_formats ->
  exists pil_format extension,
    FORMAT_MAP !! format_name = Some (pil_format, extension) /\
    let args := mkSaveArgs pil_format (Some true) None None None None in
    convert_to_format pil img format_name w =
      match pil_save pil img args BytesIO_new with
      | (out, Returned _) =>
          (Returned (true, seek0 out, ""),
           mkWorld (seek0 out) (calls w ++ [CallSave img args]))
      | (out, Raised e) =>
          (Returned (false, BytesIO_new, "Ошибка конвертации: " +:+ e),
           mkWorld out (calls w ++ [CallSave img args]))
      end.
Proof.
  unfold generic_formats. rewrite !elem_of_cons, elem_of_nil. intros H.
  repeat (destruct H as [->|H];
          [do 2 eexists; split; [reflexivity|];
           eapply generic_branch; reflexivity|]).
  contradiction.
Qed.

(** BMP, with a Pillow whose [save] raises. *)
Lemma generic_encoder_direct_witness :
  ("BMP" ∈ generic_formats) /\
  exists pil_format extension,
    FORMAT_MAP !! "BMP" = Some (pil_format, extension) /\
    let args := mkSaveArgs pil_format (Some true) None None None None in
    convert_to_format Toy.save_fails (Toy.rgb 300 200) "BMP" start =
      match pil_save Toy.save_fails (Toy.rgb 300 200) args BytesIO_new with
      | (out, Returned _) =>
          (Returned (true, seek0 out, ""),
           mkWorld (seek0 out) (calls start ++ [CallSave (Toy.rgb 300 200) args]))
      | (out, Raised e) =>
          (Returned (false, BytesIO_new, "Ошибка конвертации: " +:+ e),
           mkWorld out (calls start ++ [CallSave (Toy.rgb 300 200) args]))
      end.
Proof.
  assert (H : "BMP" ∈ generic_formats) by compute_done.
  split; [exact H|].
  exact (generic_encoder_direct Toy.save_fails (Toy.rgb 300 200) "BMP" start H).
Defined.

(** C10.  Converting to APNG is converting to PNG.  Either makes exactly
    one Pillow call, a [save] of the input image itself with format PNG and
    [optimize=True] and with no other argument, so with no further frames:
    a static PNG.  When that call returns, the result is the stream it wrote
    into a fresh buffer; when it raises, the failure carrying its message.
    The two runs are equal, and the two identifiers differ in the file
    extension only. *)
Theorem apng_same_as_png (pil : PIL) (img : Image) (w : World) :
  let args := mkSaveArgs "PNG" (Some true) None None None None in
  convert_to_format pil img "APNG" w =
    match pil_save pil img args BytesIO_new with
    | (out, Returned _) =>
        (Returned (true, seek0 out, ""),
         mkWorld (seek0 out) (calls w ++ [CallSave img args]))
    | (out, Raised e) =>
        (Returned (false, BytesIO_new, "Ошибка конвертации: " +:+ e),
         mkWorld out (calls w ++ [CallSave img args]))
    end /\
  calls (convert_to_format pil img "APNG" w).2 = calls w ++ [CallSave img args] /\
  sa_append_images args = None /\
  convert_to_format pil img "APNG" w = convert_to_format pil img "PNG" w /\
  FORMAT_MAP !! "APNG" = Some ("PNG", "apng") /\
  FORMAT_MAP !! "PNG" = Some ("PNG", "png") /\
  filename "APNG" = Some "converted.apng" /\
  filename "PNG" = Some "converted.png".
Proof.
  intros args.
  pose proof (generic_branch pil img "APNG" "PNG" "apng" w
                eq_refl eq_refl eq_refl eq_refl) as Hapng.
  pose proof (generic_branch pil img "PNG" "PNG" "png" w
                eq_refl eq_refl eq_refl eq_refl) as Hpng.
  cbv zeta in Hapng, Hpng. fold args in Hapng, Hpng.
  split; [exact Hapng|]. split.
  { rewrite Hapng.
    destruct (pil_save pil img args BytesIO_new) as [out [[]|e]]; reflexivity. }
  split; [reflexivity|]. split; [by rewrite Hapng, Hpng|].
  repeat split; reflexivity.
Qed.

(** ** The icon encoder: resolution and crop *)

Lemma ico_sizes_single (base : Z) : ico_sizes base = [spec_icon_size base].
Proof.
  unfold ico_sizes, spec_icon_size. rewrite !Z.geb_leb.
  repeat (case_match; [reflexivity|]).
  case_match; f_equal; lia.
Qed.

(** The primary path never asks for a resolution outside 16..256. *)
Lemma ico_sizes_bounds (base sz : Z) :
  sz ∈ ico_sizes base -> 16 <= sz <= 256.
Proof.
  rewrite ico_sizes_single. intros ->%list_elem_of_singleton.
  unfold spec_icon_size. repeat case_match; lia.
Qed.

(** The primary path runs its loop body once, for the selected size, and
    saves the one image it produced. *)
Lemma ico_primary_single pil img w :
  ico_primary pil img w =
    (resized <- ico_resized pil img
                  (spec_icon_size (Z.min (width img) (height img))) ;;
     save pil resized (primary_args resized) ;;;
     output_seek0 ;;;
     ret true) w.
Proof.
  unfold ico_primary. rewrite ico_sizes_single. simpl ico_images.
  unfold bind.
  destruct (ico_resized pil img _ w) as [[resized|e] w1]; reflexivity.
Qed.

(** C2.  The primary icon encoder selects exactly one resolution, by the
    descending thresholds 256, 128, 64, 32 on base = min(width, height) and
    max(base, 16) below 32, and builds and saves the single image for that
    resolution; 500x500 selects 256, 100x150 selects 64, 10x10 selects 16. *)
Theorem ico_resolution_selection (pil : PIL) (img : Image) (w : World) :
  let base := Z.min (width img) (height img) in
  ico_sizes base = [spec_icon_size base] /\
  ico_primary pil img w =
    (resized <- ico_resized pil img (spec_icon_size base) ;;
     save pil resized (primary_args resized) ;;;
     output_seek0 ;;;
     ret true) w /\
  ico_sizes (Z.min 500 500) = [256] /\
  ico_sizes (Z.min 100 150) = [64] /\
  ico_sizes (Z.min 10 10) = [16].
Proof.
  intros base. split; [apply ico_sizes_single|].
  split; [apply ico_primary_single|]. repeat split; reflexivity.
Qed.

Lemma crop_box_geometry (img : Image) :
  let base := Z.min (width img) (height img) in
  let '(l, t, r, b) := crop_box img in
  l = (width img - base) `div` 2 /\
  t = (height img - base) `div` 2 /\
  r - l = base /\
  b - t = base /\
  (width img <= height img -> l = 0) /\
  (height img <= width img -> t = 0) /\
  0 <= (width img - r) - l <= 1 /\
  0 <= (height img - b) - t <= 1.
Proof.
  unfold crop_box. simpl.
  set (m := Z.min (width img) (height img)).
  pose proof (Z.div_mod (width img - m) 2 ltac:(lia)) as Hw.
  pose proof (Z.mod_pos_bound (width img - m) 2 ltac:(lia)) as Hw'.
  pose proof (Z.div_mod (height img - m) 2 ltac:(lia)) as Hh.
  pose proof (Z.mod_pos_bound (height img - m) 2 ltac:(lia)) as Hh'.
  assert (m <= width img /\ m <= height img) as [Hmw Hmh] by (unfold m; lia).
  repeat split; lia.
Qed.

(** ** The sequence of Pillow calls only grows *)

Lemma extends_ret {A} (a : A) : extends (ret a).
Proof. intros w. exists []. simpl. by rewrite app_nil_r. Qed.

Lemma extends_raise {A} e : extends (@raise A e).
Proof. intros w. exists []. simpl. by rewrite app_nil_r. Qed.

Lemma extends_bind {A B} (m : M A) (k : A -> M B) :
  extends m -> (forall a, extends (k a)) -> extends (bind m k).
Proof.
  intros Hm Hk w. unfold bind. destruct (Hm w) as [r1 H1].
  destruct (m w) as [[a|e] w1]; simpl in *.
  - destruct (Hk a w1) as [r2 H2]. exists (r1 ++ r2).
    rewrite H2, H1. by rewrite app_assoc.
  - eauto.
Qed.

Lemma extends_try_except {A} (m : M A) (h : Exception -> M A) :
  extends m -> (forall e, extends (h e)) -> extends (try_except m h).
Proof.
  intros Hm Hh w. unfold try_except. destruct (Hm w) as [r1 H1].
  destruct (m w) as [[a|e] w1]; simpl in *.
  - eauto.
  - destruct (Hh e w1) as [r2 H2]. exists (r1 ++ r2).
    rewrite H2, H1. by rewrite app_assoc.
Qed.

Lemma extends_invoke {A} c (r : Outcome A) : extends (invoke c r).
Proof. intros w. exists [c]. reflexivity. Qed.

Lemma extends_save pil img args : extends (save pil img args).
Proof.
  intros w. exists [CallSave img args]. unfold save.
  destruct (pil_save pil img args (output w)). reflexivity.
Qed.

Lemma extends_output_seek0 : extends output_seek0.
Proof. intros w. exists []. simpl. by rewrite app_nil_r. Qed.

Lemma extends_output_new : extends output_new.
Proof. intros w. exists []. simpl. by rewrite app_nil_r. Qed.

Lemma extends_output_get : extends output_get.
Proof. intros w. exists []. simpl. by rewrite app_nil_r. Qed.

Lemma extends_if {A} (b : bool) (m1 m2 : M A) :
  extends m1 -> extends m2 -> extends (if b then m1 else m2).
Proof. destruct b; auto. Qed.

Ltac extends_tac :=
  repeat first
    [ progress intros
    | apply extends_invoke | apply extends_save | apply extends_ret
    | apply extends_raise | apply extends_output_seek0
    | apply extends_output_new | apply extends_output_get
    | apply extends_bind | apply extends_try_except | apply extends_if
    | match goal with H : forall _, extends _ |- _ => apply H end
    | match goal with |- extends (match ?x with _ => _ end) => destruct x end ].

Lemma extends_ico_resized pil img sz : extends (ico_resized pil img sz).
Proof. unfold ico_resized, crop, resize, copy, convert. extends_tac. Qed.

Lemma extends_ico_primary pil img : extends (ico_primary pil img).
Proof.
  intros w. rewrite ico_primary_single. revert w.
  apply extends_bind; [apply extends_ico_resized|]. extends_tac.
Qed.

Lemma extends_ico_fallback pil img : extends (ico_fallback pil img).
Proof. unfold ico_fallback, crop, resize, convert. extends_tac. Qed.

(** A Pillow call followed by more work: the call is recorded first. *)
Lemma calls_bind_invoke {A B} c (r : Outcome A) (k : A -> M B) w :
  calls (bind (invoke c r) k w).2 =
    match r with
    | Returned a => calls (k a (mkWorld (output w) (calls w ++ [c]))).2
    | Raised _ => calls w ++ [c]
    end.
Proof. unfold bind, invoke. destruct r; reflexivity. Qed.

Lemma bind_assoc {A B C} (m : M A) (f : A -> M B) (g : B -> M C) w :
  bind (bind m f) g w = bind m (fun a => bind (f a) g) w.
Proof. unfold bind. destruct (m w) as [[a|e] w1]; reflexivity. Qed.

(** For a non-square image the loop body of the primary path starts with
    the crop and hands the crop to [resize]. *)
Lemma ico_resized_crop_first {B} pil img sz (k : Image -> M B) w :
  width img <> height img ->
  (forall resized, extends (k resized)) ->
  exists rest,
    calls (bind (ico_resized pil img sz) k w).2 =
      calls w ++ CallCrop img (crop_box img) :: rest /\
    forall square, pil_crop pil img (crop_box img) = Returned square ->
      exists rest', rest = CallResize square (sz, sz) :: rest'.
Proof.
  intros Hne Hk. unfold ico_resized.
  assert (negb (width img =? sz) || negb (height img =? sz) = true) as ->.
  { destruct (Z.eqb_spec (width img) sz), (Z.eqb_spec (height img) sz);
      simpl; congruence. }
  assert (negb (width img =? height img) = true) as ->.
  { destruct (Z.eqb_spec (width img) (height img)); simpl; congruence. }
  rewrite !bind_assoc. unfold crop, resize. rewrite calls_bind_invoke.
  destruct (pil_crop pil img (crop_box img)) as [square|e].
  - rewrite calls_bind_invoke. simpl.
    destruct (pil_resize pil square (sz, sz)) as [resized|e].
    + match goal with |- context [calls (?m ?w0).2] =>
        assert (extends m) as Hext
          by (unfold convert; extends_tac);
        destruct (Hext w0) as [rest' ->]
      end.
      simpl. exists (CallResize square (sz, sz) :: rest'). split.
      * rewrite <- !app_assoc. reflexivity.
      * intros ? [= <-]. eauto.
    + exists [CallResize square (sz, sz)]. split.
      * rewrite <- !app_assoc. reflexivity.
      * intros ? [= <-]. eauto.
  - exists []. split; [reflexivity | discriminate].
Qed.

(** C5.  For a non-square image the icon encoder crops to the centred
    square of side base = min(width, height): the box starts at
    (dim - base) div 2 on each axis, which is 0 on the shorter axis, and the
    margins cut on the two sides of the longer axis are that offset and the
    rest, equal up to the one pixel lost by the integer division.  In both
    the primary path and the fallback the crop is the first Pillow call, and
    the primary path resizes the crop it got.  For 400x300 the box is
    (50, 0, 350, 300). *)
Theorem ico_center_crop (pil : PIL) (img : Image) (w : World) :
  width img <> height img ->
  let base := Z.min (width img) (height img) in
  let target := spec_icon_size base in
  crop_box img =
    ((width img - base) `div` 2, (height img - base) `div` 2,
     (width img - base) `div` 2 + base, (height img - base) `div` 2 + base) /\
  (height img < width img ->
   crop_box img = ((width img - height img) `div` 2, 0,
                   (width img - height img) `div` 2 + height img, height img)) /\
  (width img < height img ->
   crop_box img = (0, (height img - width img) `div` 2,
                   width img, (height img - width img) `div` 2 + width img)) /\
  (let '(l, t, r, b) := crop_box img in
   0 <= (width img - r) - l <= 1 /\ 0 <= (height img - b) - t <= 1) /\
  (exists rest,
     calls (ico_primary pil img w).2 =
       calls w ++ CallCrop img (crop_box img) :: rest /\
     forall square, pil_crop pil img (crop_box img) = Returned square ->
       exists rest', rest = CallResize square (target, target) :: rest') /\
  (exists rest,
     calls (ico_fallback pil img w).2 =
       calls w ++ CallCrop img (crop_box img) :: rest) /\
  crop_box (mkImage 400 300 (mode img) (info img) (samples img)) =
    (50, 0, 350, 300).
Proof.
  intros Hne base target.
  split; [reflexivity|].
  split.
  { intros H. unfold crop_box. rewrite Z.min_r by lia.
    rewrite Z.sub_diag. reflexivity. }
  split.
  { intros H. unfold crop_box. rewrite Z.min_l by lia.
    rewrite Z.sub_diag. reflexivity. }
  split.
  { pose proof (crop_box_geometry img) as H. cbv zeta in H.
    destruct (crop_box img) as [[[l t] r] b].
    destruct H as (_ & _ & _ & _ & _ & _ & Hw & Hh). split; assumption. }
  split.
  { rewrite ico_primary_single.
    apply ico_resized_crop_first; [exact Hne | extends_tac]. }
  split; [|reflexivity].
  unfold ico_fallback.
  assert (negb (width img =? height img) = true) as ->.
  { destruct (Z.eqb_spec (width img) (height img)); simpl; congruence. }
  unfold crop. rewrite calls_bind_invoke.
  destruct (pil_crop pil img (crop_box img)) as [square|e]; [|by exists []].
  match goal with |- context [calls (?m ?w0).2] =>
    assert (extends m) as Hext by (unfold resize, convert; extends_tac);
    destruct (Hext w0) as [rest ->]
  end.
  simpl. exists rest. rewrite <- app_assoc. reflexivity.
Qed.

(** The 400x300 image of the specification's example. *)
Lemma ico_center_crop_witness :
  let img := mkImage 400 300 "RGB" ∅ [] in
  width img <> height img /\
  crop_box img = (50, 0, 350, 300) /\
  exists rest,
    calls (ico_primary Toy.ok img start).2 =
      CallCrop img (50, 0, 350, 300) ::
      CallResize (mkImage 300 300 "RGB" ∅ []) (256, 256) :: rest.
Proof.
  assert (H : width (mkImage 400 300 "RGB" ∅ []) <>
              height (mkImage 400 300 "RGB" ∅ [])) by (simpl; lia).
  pose proof (ico_center_crop Toy.ok (mkImage 400 300 "RGB" ∅ []) start H)
    as (_ & _ & _ & _ & (rest & Hcalls & Hresize) & _ & Hbox).
  split; [exact H|]. split; [exact Hbox|].
  destruct (Hresize (mkImage 300 300 "RGB" ∅ []) eq_refl) as [rest' ->].
  exists rest'. exact Hcalls.
Defined.

(** ** The icon encoder: the fallback *)

(** The fallback never asks for more than 256, and asks for the base
    itself below that. *)
Lemma ico_fallback_size (img : Image) :
  let base := Z.min (width img) (height img) in
  Z.min 256 base <= 256 /\ (base <= 256 -> Z.min 256 base = base).
Proof. simpl. lia. Qed.

(** C3.  A 10x10 16-bit greyscale image, with a Pillow whose Lanczos
    resize rejects that mode: the primary path asks for 16x16 and raises,
    the fallback skips the resize and saves the image at 10x10, below 16,
    and the encoder reports success. *)
Theorem ico_fallback_below_16 :
  let img := Toy.gray16 10 10 in
  exists w',
    _convert_to_ico Toy.lanczos_rejects img start = (Returned true, w') /\
    pil_resize Toy.lanczos_rejects img (16, 16) = Raised "image has wrong mode" /\
    calls w' =
      [CallResize img (16, 16);
       CallConvert img "RGB";
       CallSave (Toy.rgb 10 10) fallback_args] /\
    Z.min 256 (Z.min (width img) (height img)) = 10.
Proof. simpl. eexists. repeat split; reflexivity. Qed.

(** C7.  A 10x10 image whose primary [save] raises: that [save]
    wrote the four bytes of the ICO magic number before it raised, the
    fallback [save] wrote after them, and the stream returned as a success
    is the leftover of the failed attempt followed by the encoding, not the
    encoding the fallback [save] produces on its own. *)
Theorem ico_stream_keeps_failed_attempt :
  let img := Toy.rgb 10 10 in
  let alone := (pil_save Toy.sizes_rejected img fallback_args BytesIO_new).1 in
  exists buffer w',
    convert_to_format Toy.sizes_rejected img "ICO" start =
      (Returned (true, buffer, ""), w') /\
    calls w' =
      [CallResize img (16, 16);
       CallSave (Toy.rgb 16 16) (primary_args (Toy.rgb 16 16));
       CallSave img fallback_args] /\
    getvalue alone = [x00; x00; x01; x00; x0a; x0a] /\
    getvalue buffer = [x00; x00; x01; x00] ++ getvalue alone /\
    (pil_save Toy.sizes_rejected (Toy.rgb 16 16) (primary_args (Toy.rgb 16 16))
              BytesIO_new).1 = mkBytesIO [x00; x00; x01; x00] 4.
Proof. simpl. do 2 eexists. repeat split; reflexivity. Qed.

(** ** Counting the calls of [save] *)

Lemma saves_app (cs1 cs2 : list Call) :
  saves (cs1 ++ cs2) = (saves cs1 + saves cs2)%nat.
Proof.
  induction cs1 as [|c cs1 IH]; [reflexivity|].
  destruct c; simpl; rewrite IH; reflexivity.
Qed.

Lemma at_most_ret {A} (a : A) n : at_most n (ret a).
Proof. intros w. exists []. simpl. rewrite app_nil_r. split; [done | lia]. Qed.

Lemma at_most_seek0 n : at_most n output_seek0.
Proof. intros w. exists []. simpl. rewrite app_nil_r. split; [done | lia]. Qed.

Lemma at_most_invoke {A} c (r : Outcome A) n :
  saves [c] = 0%nat -> at_most n (invoke c r).
Proof. intros H w. exists [c]. simpl in *. split; [done | lia]. Qed.

Lemma at_most_save pil img args n :
  (1 <= n)%nat -> at_most n (save pil img args).
Proof.
  intros H w. exists [CallSave img args]. unfold save.
  destruct (pil_save pil img args (output w)). simpl. split; [done | lia].
Qed.

Lemma at_most_bind {A B} n1 n2 n (m : M A) (k : A -> M B) :
  at_most n1 m -> (forall a, at_most n2 (k a)) -> (n1 + n2 <= n)%nat ->
  at_most n (bind m k).
Proof.
  intros Hm Hk Hn w. unfold bind. destruct (Hm w) as (r1 & H1 & L1).
  destruct (m w) as [[a|e] w1]; simpl in *.
  - destruct (Hk a w1) as (r2 & H2 & L2). exists (r1 ++ r2).
    rewrite H2, H1, saves_app. split; [by rewrite app_assoc | lia].
  - exists r1. split; [done | lia].
Qed.

Lemma at_most_try_except {A} n1 n2 n (m : M A) (h : Exception -> M A) :
  at_most n1 m -> (forall e, at_most n2 (h e)) -> (n1 + n2 <= n)%nat ->
  at_most n (try_except m h).
Proof.
  intros Hm Hh Hn w. unfold try_except. destruct (Hm w) as (r1 & H1 & L1).
  destruct (m w) as [[a|e] w1]; simpl in *.
  - exists r1. split; [done | lia].
  - destruct (Hh e w1) as (r2 & H2 & L2). exists (r1 ++ r2).
    rewrite H2, H1, saves_app. split; [by rewrite app_assoc | lia].
Qed.

Lemma at_most_if {A} n (b : bool) (m1 m2 : M A) :
  at_most n m1 -> at_most n m2 -> at_most n (if b then m1 else m2).
Proof. destruct b; auto. Qed.

(** Steps that never save. *)
Ltac no_save :=
  repeat first
    [ progress intros
    | apply at_most_ret | apply at_most_seek0
    | apply at_most_invoke; reflexivity
    | apply at_most_if
    | apply (at_most_bind 0 0 0); [ | | reflexivity] ].

Lemma ico_resized_no_save pil img sz : at_most 0 (ico_resized pil img sz).
Proof. unfold ico_resized, crop, resize, copy, convert. no_save. Qed.

Lemma ico_primary_one_save pil img : at_most 1 (ico_primary pil img).
Proof.
  intros w. rewrite ico_primary_single. revert w.
  apply (at_most_bind 0 1); [apply ico_resized_no_save | | lia].
  intros resized. apply (at_most_bind 1 0); [by apply at_most_save | | lia].
  no_save.
Qed.

Lemma ico_fallback_one_save pil img : at_most 1 (ico_fallback pil img).
Proof.
  unfold ico_fallback, crop, resize, convert.
  apply (at_most_bind 0 1); [no_save | | lia]. intros square.
  apply (at_most_bind 0 1); [no_save | | lia]. intros resized.
  apply (at_most_bind 0 1); [no_save | | lia]. intros final.
  apply (at_most_bind 1 0); [by apply at_most_save | | lia].
  no_save.
Qed.

Lemma _convert_to_ico_two_saves pil img : at_most 2 (_convert_to_ico pil img).
Proof.
  unfold _convert_to_ico.
  apply (at_most_try_except 1 1); [apply ico_primary_one_save | | lia].
  intros e. apply (at_most_try_except 1 0); [apply ico_fallback_one_save | | lia].
  no_save.
Qed.

Lemma bind_inv {A B} (m : M A) (k : A -> M B) w b w' :
  bind m k w = (Returned b, w') ->
  exists a w1, m w = (Returned a, w1) /\ k a w1 = (Returned b, w').
Proof.
  unfold bind. destruct (m w) as [[a|e] w1]; [eauto | discriminate].
Qed.

Lemma invoke_inv {A} c (r : Outcome A) w a w' :
  invoke c r w = (Returned a, w') ->
  r = Returned a /\ calls w' = calls w ++ [c] /\ output w' = output w.
Proof. unfold invoke. intros [= -> <-]. auto. Qed.

Lemma ret_inv {A} (x : A) w a w' :
  ret x w = (Returned a, w') ->
  a = x /\ calls w' = calls w ++ [] /\ output w' = output w.
Proof. unfold ret. intros [= -> <-]. rewrite app_nil_r. auto. Qed.

Lemma ico_fallback_returned pil img w1 b w2 :
  ico_fallback pil img w1 = (Returned b, w2) ->
  let simple_size := Z.min 256 (Z.min (width img) (height img)) in
  b = true /\
  exists square resized final,
    (if width img =? height img then square = img
     else pil_crop pil img (crop_box img) = Returned square) /\
    (if bool_decide (size square = (simple_size, simple_size))
     then resized = square
     else pil_resize pil square (simple_size, simple_size) = Returned resized) /\
    (if str_in (mode resized) ["RGB"; "RGBA"] then final = resized
     else pil_convert pil resized (fallback_target resized) = Returned final) /\
    calls w2 = calls w1 ++ fallback_calls img square resized final /\
    (pil_save pil final fallback_args (output w1)).2 = Returned tt /\
    output w2 = seek0 (pil_save pil final fallback_args (output w1)).1.
Proof.
  intros H simple_size. unfold ico_fallback in H. fold simple_size in H.
  apply bind_inv in H as (square & wa & Hcrop & H).
  apply bind_inv in H as (resized & wb & Hresize & H).
  apply bind_inv in H as (final & wc & Hconvert & H).
  apply bind_inv in H as ([] & wd & Hsave & H).
  apply bind_inv in H as ([] & we & Hseek & H).
  unfold ret in H. injection H as <- <-.
  unfold output_seek0 in Hseek. injection Hseek as <-.
  unfold save in Hsave. fold fallback_args in Hsave.
  destruct (pil_save pil final fallback_args (output wc)) as [out r] eqn:Hs.
  injection Hsave as -> <-. simpl.
  split; [reflexivity|]. exists square, resized, final.
  unfold fallback_calls. fold simple_size.
  assert ((if width img =? height img then square = img
           else pil_crop pil img (crop_box img) = Returned square) /\
          calls wa = calls w1 ++
            (if width img =? height img then []
             else [CallCrop img (crop_box img)]) /\
          output wa = output w1) as (Hsq & Hca & Hoa).
  { destruct (width img =? height img); simpl in Hcrop.
    - by apply ret_inv in Hcrop.
    - by apply invoke_inv in Hcrop. }
  assert ((if bool_decide (size square = (simple_size, simple_size))
           then resized = square
           else pil_resize pil square (simple_size, simple_size)
                = Returned resized) /\
          calls wb = calls wa ++
            (if bool_decide (size square = (simple_size, simple_size)) then []
             else [CallResize square (simple_size, simple_size)]) /\
          output wb = output wa) as (Hrs & Hcb & Hob).
  { destruct (bool_decide (size square = (simple_size, simple_size)));
      simpl in Hresize.
    - by apply ret_inv in Hresize.
    - by apply invoke_inv in Hresize. }
  assert ((if str_in (mode resized) ["RGB"; "RGBA"] then final = resized
           else pil_convert pil resized (fallback_target resized)
                = Returned final) /\
          calls wc = calls wb ++
            (if str_in (mode resized) ["RGB"; "RGBA"] then []
             else [CallConvert resized (fallback_target resized)]) /\
          output wc = output wb) as (Hfi & Hcc & Hoc).
  { unfold fallback_target.
    destruct (str_in (mode resized) ["RGB"; "RGBA"]); simpl negb in Hconvert;
      cbv iota in Hconvert.
    - by apply ret_inv in Hconvert.
    - destruct (bool_decide ("transparency" ∈ info resized)
                || str_in (mode resized) ["LA"; "P"]);
        by apply invoke_inv in Hconvert. }
  rewrite Hoc, Hob, Hoa in Hs. rewrite Hs. simpl.
  repeat split; try assumption.
  rewrite Hcc, Hcb, Hca, <- !app_assoc. reflexivity.
Qed.

(** C4, as stated, fails on an RGBA image without transparency metadata:
    after the primary attempt has raised, the fallback encodes the image as
    it is, in mode RGBA, where the stated rule gives RGB. *)
Lemma ico_fallback_keeps_rgba :
  let img := Toy.rgba 64 64 in
  exists w' saved,
    _convert_to_ico Toy.sizes_rejected img start = (Returned true, w') /\
    calls w' = [CallCopy img;
                CallSave img (primary_args img);
                CallSave saved fallback_args] /\
    mode saved = "RGBA" /\
    spec_fallback_mode img = "RGB" /\
    mode saved <> spec_fallback_mode img.
Proof.
  simpl. do 2 eexists.
  split; [reflexivity|]. split; [reflexivity|]. split; [reflexivity|].
  split; [reflexivity|]. discriminate.
Qed.

(** C4, amended.  When the primary procedure raises, [_convert_to_ico] runs
    the fallback once, from the state the primary attempt left, and a raise
    in the fallback is the result [False]: the fallback calls [save] at most
    once and the whole encoder at most twice.  A fallback run that returns
    has returned [True] after: a crop by the centre-square rule only for a
    non-square image; a resize to min(256, base) only when the square does
    not already have that size; a conversion only when the mode is neither
    RGB nor RGBA, to RGBA if the image has transparency metadata or its mode
    is LA or P and to RGB otherwise; and one [save] as ICO with
    [bitmap_format='bmp'] and no other option. *)
Theorem ico_fallback_retry (pil : PIL) (img : Image) (w : World)
    (e : Exception) (w1 : World) :
  ico_primary pil img w = (Raised e, w1) ->
  let simple_size := Z.min 256 (Z.min (width img) (height img)) in
  _convert_to_ico pil img w =
    match ico_fallback pil img w1 with
    | (Returned b, w2) => (Returned b, w2)
    | (Raised _, w2) => (Returned false, w2)
    end /\
  at_most 1 (ico_fallback pil img) /\
  at_most 2 (_convert_to_ico pil img) /\
  forall b w2, ico_fallback pil img w1 = (Returned b, w2) ->
    b = true /\
    exists square resized final,
      (if width img =? height img then square = img
       else pil_crop pil img (crop_box img) = Returned square) /\
      (if bool_decide (size square = (simple_size, simple_size))
       then resized = square
       else pil_resize pil square (simple_size, simple_size)
            = Returned resized) /\
      (if str_in (mode resized) ["RGB"; "RGBA"] then final = resized
       else pil_convert pil resized (fallback_target resized)
            = Returned final) /\
      calls w2 = calls w1 ++ fallback_calls img square resized final /\
      (pil_save pil final fallback_args (output w1)).2 = Returned tt /\
      output w2 = seek0 (pil_save pil final fallback_args (output w1)).1.
Proof.
  intros Hprimary simple_size. split.
  { unfold _convert_to_ico, try_except. rewrite Hprimary.
    destruct (ico_fallback pil img w1) as [[b|e'] w2]; reflexivity. }
  split; [apply ico_fallback_one_save|].
  split; [apply _convert_to_ico_two_saves|].
  intros b w2 H. exact (ico_fallback_returned pil img w1 b w2 H).
Qed.

(** A 400x300 LA image whose primary [save] raises: the fallback crops,
    resizes to 256, converts to RGBA and saves. *)
Lemma ico_fallback_retry_witness :
  let img := Toy.gray_alpha 400 300 in
  let square := Toy.gray_alpha 300 300 in
  let resized := Toy.gray_alpha 256 256 in
  let final := Toy.rgba 256 256 in
  exists w1 w2,
    ico_primary Toy.sizes_rejected img start
      = (Raised "sizes not supported", w1) /\
    _convert_to_ico Toy.sizes_rejected img start = (Returned true, w2) /\
    calls w2 = calls w1 ++
      [CallCrop img (50, 0, 350, 300);
       CallResize square (256, 256);
       CallConvert resized "RGBA";
       CallSave final fallback_args].
Proof.
  cbv zeta. do 2 eexists. split; [vm_compute; reflexivity|].
  refine (let H := ico_fallback_retry Toy.sizes_rejected
                     (Toy.gray_alpha 400 300) start _ _ eq_refl in _).
  destruct H as (Hrun & _ & _ & _).
  split; [rewrite Hrun|]; vm_compute; reflexivity.
Defined.

(** ** The JPEG encoder *)

(** C6, as stated, fails twice.  A palette image without a transparency
    index is not flattened without compositing: it is converted to RGBA and
    pasted through its alpha band like any other palette image.  An LA
    image is pasted with no mask at all, so its alpha channel is not the
    blend mask. *)
Lemma jpeg_policy_differs :
  let p := Toy.palette 4 4 in
  let la := Toy.gray_alpha 4 4 in
  let white := mkImage 4 4 "RGB" ∅ [] in
  (spec_jpeg_plain p = true /\
   _convert_to_jpeg Toy.ok p "JPEG" start =
     (Returned true,
      mkWorld (mkBytesIO [x04; x04] 2)
        [CallNew "RGB" (4, 4) (255, 255, 255);
         CallConvert p "RGBA";
         CallSplit (Toy.rgba 4 4);
         CallPaste white (Toy.rgba 4 4) (Some (mkImage 4 4 "L" ∅ []));
         CallSave white (jpeg_args "JPEG")]) /\
   pasted (calls (_convert_to_jpeg Toy.ok p "JPEG" start).2) = true) /\
  (spec_jpeg_masked la = true /\
   _convert_to_jpeg Toy.ok la "JPEG" start =
     (Returned true,
      mkWorld (mkBytesIO [x04; x04] 2)
        [CallNew "RGB" (4, 4) (255, 255, 255);
         CallPaste white la None;
         CallSave white (jpeg_args "JPEG")]) /\
   mask_used (calls (_convert_to_jpeg Toy.ok la "JPEG" start).2) = false).
Proof. cbv zeta. repeat split; vm_compute; reflexivity. Qed.

Lemma save_inv pil img args w w' :
  save pil img args w = (Returned tt, w') ->
  (pil_save pil img args (output w)).2 = Returned tt /\
  calls w' = calls w ++ [CallSave img args] /\
  output w' = (pil_save pil img args (output w)).1.
Proof.
  unfold save. destruct (pil_save pil img args (output w)) as [out r].
  intros [= -> <-]. auto.
Qed.

Lemma split_last_inv pil img w band w' :
  split_last pil img w = (Returned band, w') ->
  exists bands,
    pil_split pil img = Returned bands /\ last bands = Some band /\
    calls w' = calls w ++ [CallSplit img] /\ output w' = output w.
Proof.
  unfold split_last. intros H.
  apply bind_inv in H as (bands & wa & Hsplit & H).
  apply invoke_inv in Hsplit as (Hs & Hc & Ho).
  exists bands. destruct (last bands) as [b|]; [|discriminate].
  apply ret_inv in H as (-> & Hc' & Ho').
  rewrite app_nil_r in Hc'. repeat split; congruence.
Qed.

(** A [try] whose handler answers [False] has answered [True] only if its
    body has. *)
Lemma try_except_true_inv (m : M bool) w w' :
  try_except m (fun _ => ret false) w = (Returned true, w') ->
  m w = (Returned true, w').
Proof.
  unfold try_except. destruct (m w) as [[b|e] w1]; [auto | discriminate].
Qed.

(** The paste onto white and the save that follow once the image to paste
    is known to be RGBA. *)
Lemma jpeg_paste_rgba pil (background src : Image) pil_format w w' :
  mode src = "RGBA" ->
  (flat <- (mask <- (if String.eqb (mode src) "RGBA"
                     then band <- split_last pil src ;; ret (Some band)
                     else ret None) ;;
            paste pil background src mask) ;;
   save pil flat (jpeg_args pil_format) ;;; ret true) w = (Returned true, w') ->
  exists bands band flat,
    pil_split pil src = Returned bands /\ last bands = Some band /\
    pil_paste pil background src (Some band) = Returned flat /\
    (pil_save pil flat (jpeg_args pil_format) (output w)).2 = Returned tt /\
    calls w' = calls w ++
      [CallSplit src; CallPaste background src (Some band);
       CallSave flat (jpeg_args pil_format)] /\
    output w' = (pil_save pil flat (jpeg_args pil_format) (output w)).1.
Proof.
  intros Hmode H. rewrite Hmode in H. simpl String.eqb in H. cbv iota in H.
  apply bind_inv in H as (flat & wc & Hflat & H).
  apply bind_inv in Hflat as (mask & wb & Hmask & Hpaste).
  apply bind_inv in Hmask as (band & wa & Hband & Hmask).
  apply ret_inv in Hmask as (-> & Hcb & Hob). rewrite app_nil_r in Hcb.
  apply split_last_inv in Hband as (bands & Hsplit & Hlast & Hca & Hoa).
  apply invoke_inv in Hpaste as (Hp & Hcc & Hoc).
  apply bind_inv in H as ([] & wd & Hsave & H).
  apply ret_inv in H as (_ & Hce & Hoe). rewrite app_nil_r in Hce.
  apply save_inv in Hsave as (Hs & Hcd & Hod).
  assert (output wc = output w) as Hout by congruence.
  rewrite Hout in Hs, Hod.
  exists bands, band, flat. repeat split; try assumption; [|congruence].
  rewrite Hce, Hcd, Hcc, Hcb, Hca, <- !app_assoc. reflexivity.
Qed.

(** C6, amended.  The JPEG encoder never raises.  For an input whose mode
    is none of RGBA, LA and P, such as RGB, its only Pillow call is the save
    of the input itself with [optimize=True] and [quality=90].  For an RGBA
    input, a successful run has created an opaque white RGB image of the
    input's dimensions, pasted the input onto it with the input's last band
    as the mask, and saved the result with the same options.  For a P input,
    with or without a transparency index, a successful run has created the
    white image, converted the input to RGBA and, the conversion giving an
    RGBA image, pasted and saved it in the same way. *)
Theorem jpeg_flattening (pil : PIL) (img : Image) (pil_format : string)
    (w : World) :
  let white := (255, 255, 255) in
  let args := jpeg_args pil_format in
  returns (_convert_to_jpeg pil img pil_format) /\
  (str_in (mode img) ["RGBA"; "LA"; "P"] = false ->
   _convert_to_jpeg pil img pil_format w =
     match pil_save pil img args (output w) with
     | (out, Returned _) =>
         (Returned true, mkWorld out (calls w ++ [CallSave img args]))
     | (out, Raised _) =>
         (Returned false, mkWorld out (calls w ++ [CallSave img args]))
     end) /\
  (mode img = "RGBA" -> forall w',
   _convert_to_jpeg pil img pil_format w = (Returned true, w') ->
   exists background bands band flat,
     pil_new pil "RGB" (size img) white = Returned background /\
     pil_split pil img = Returned bands /\ last bands = Some band /\
     pil_paste pil background img (Some band) = Returned flat /\
     (pil_save pil flat args (output w)).2 = Returned tt /\
     calls w' = calls w ++
       [CallNew "RGB" (size img) white; CallSplit img;
        CallPaste background img (Some band); CallSave flat args] /\
     output w' = (pil_save pil flat args (output w)).1) /\
  (mode img = "P" -> forall w',
   _convert_to_jpeg pil img pil_format w = (Returned true, w') ->
   exists background converted,
     pil_new pil "RGB" (size img) white = Returned background /\
     pil_convert pil img "RGBA" = Returned converted /\
     (mode converted = "RGBA" ->
      exists bands band flat,
        pil_split pil converted = Returned bands /\ last bands = Some band /\
        pil_paste pil background converted (Some band) = Returned flat /\
        (pil_save pil flat args (output w)).2 = Returned tt /\
        calls w' = calls w ++
          [CallNew "RGB" (size img) white; CallConvert img "RGBA";
           CallSplit converted; CallPaste background converted (Some band);
           CallSave flat args] /\
        output w' = (pil_save pil flat args (output w)).1)).
Proof.
  intros white args. split; [apply _convert_to_jpeg_returns|].
  split; [|split].
  - intros Hmode. unfold _convert_to_jpeg, try_except. rewrite Hmode.
    unfold bind, save, ret. simpl. fold (jpeg_args pil_format). fold args.
    destruct (pil_save pil img args (output w)) as [out [[]|e]]; reflexivity.
  - intros Hmode w' H. apply try_except_true_inv in H.
    rewrite Hmode in H at 1. simpl str_in in H. cbv iota in H.
    rewrite !bind_assoc in H.
    apply bind_inv in H as (background & wa & Hnew & H).
    apply invoke_inv in Hnew as (Hn & Hca & Hoa).
    rewrite Hmode in H at 1. simpl String.eqb in H. cbv iota in H.
    rewrite bind_assoc in H.
    apply bind_inv in H as (src & wb & Hsrc & H).
    apply ret_inv in Hsrc as (-> & Hcb & Hob). rewrite app_nil_r in Hcb.
    apply (jpeg_paste_rgba pil background img pil_format wb w' Hmode) in H
      as (bands & band & flat & Hsp & Hl & Hp & Hs & Hc & Ho).
    assert (output wb = output w) as Hout by congruence.
    rewrite Hout in Hs, Ho.
    exists background, bands, band, flat. repeat split; try assumption.
    rewrite Hc, Hcb, Hca, <- !app_assoc. reflexivity.
  - intros Hmode w' H. apply try_except_true_inv in H.
    rewrite Hmode in H at 1. simpl str_in in H. cbv iota in H.
    rewrite !bind_assoc in H.
    apply bind_inv in H as (background & wa & Hnew & H).
    apply invoke_inv in Hnew as (Hn & Hca & Hoa).
    rewrite Hmode in H at 1. simpl String.eqb in H. cbv iota in H.
    rewrite bind_assoc in H.
    apply bind_inv in H as (converted & wb & Hconv & H).
    apply invoke_inv in Hconv as (Hcv & Hcb & Hob).
    exists background, converted. split; [assumption|]. split; [assumption|].
    intros Hrgba.
    apply (jpeg_paste_rgba pil background converted pil_format wb w' Hrgba) in H
      as (bands & band & flat & Hsp & Hl & Hp & Hs & Hc & Ho).
    assert (output wb = output w) as Hout by congruence.
    rewrite Hout in Hs, Ho.
    exists bands, band, flat. repeat split; try assumption.
    rewrite Hc, Hcb, Hca, <- !app_assoc. reflexivity.
Qed.

(** A 4x4 RGB image and a 4x4 palette image. *)
Lemma jpeg_flattening_witness :
  let p := Toy.palette 4 4 in
  let rgb := Toy.rgb 4 4 in
  let white := mkImage 4 4 "RGB" ∅ [] in
  (str_in (mode rgb) ["RGBA"; "LA"; "P"] = false /\
   calls (_convert_to_jpeg Toy.ok rgb "JPEG" start).2 =
     [CallSave rgb (jpeg_args "JPEG")]) /\
  (mode p = "P" /\
   (_convert_to_jpeg Toy.ok p "JPEG" start).1 = Returned true /\
   exists converted band,
     mode converted = "RGBA" /\
     calls (_convert_to_jpeg Toy.ok p "JPEG" start).2 =
       [CallNew "RGB" (4, 4) (255, 255, 255); CallConvert p "RGBA";
        CallSplit converted; CallPaste white converted (Some band);
        CallSave white (jpeg_args "JPEG")]).
Proof.
  cbv zeta.
  pose proof (jpeg_flattening Toy.ok (Toy.rgb 4 4) "JPEG" start)
    as (_ & Hrgb & _ & _).
  pose proof (jpeg_flattening Toy.ok (Toy.palette 4 4) "JPEG" start)
    as (_ & _ & _ & Hp).
  split.
  - split; [reflexivity|]. rewrite (Hrgb eq_refl). reflexivity.
  - split; [reflexivity|]. split; [reflexivity|].
    destruct (Hp eq_refl
                (_convert_to_jpeg Toy.ok (Toy.palette 4 4) "JPEG" start).2
                eq_refl)
      as (background & converted & Hnew & Hconv & H).
    injection Hnew as <-. injection Hconv as <-.
    destruct (H eq_refl) as (bands & band & flat & _ & _ & Hpaste & _ & Hc & _).
    injection Hpaste as <-.
    exists (Toy.rgba 4 4), band. split; [reflexivity | exact Hc].
Defined.

(** ** Properties: what kinds of call an encoder makes *)

Lemma emits_ret P {A} (a : A) : emits P (ret a).
Proof. intros w. exists []. simpl. by rewrite app_nil_r. Qed.

Lemma emits_raise P {A} e : emits P (@raise A e).
Proof. intros w. exists []. simpl. by rewrite app_nil_r. Qed.

Lemma emits_state P {A} (f : World -> A) (g : BytesIO -> BytesIO) :
  emits P (fun w => (Returned (f w), mkWorld (g (output w)) (calls w))).
Proof. intros w. exists []. simpl. by rewrite app_nil_r. Qed.

Lemma emits_invoke P {A} c (r : Outcome A) :
  P c = true -> emits P (invoke c r).
Proof. intros H w. exists [c]. simpl. by rewrite H. Qed.

Lemma emits_save P pil img args :
  P (CallSave img args) = true -> emits P (save pil img args).
Proof.
  intros H w. exists [CallSave img args]. unfold save.
  destruct (pil_save pil img args (output w)). simpl. by rewrite H.
Qed.

Lemma emits_bind P {A B} (m : M A) (k : A -> M B) :
  emits P m -> (forall a, emits P (k a)) -> emits P (bind m k).
Proof.
  intros Hm Hk w. unfold bind. destruct (Hm w) as (r1 & H1 & L1).
  destruct (m w) as [[a|e] w1]; simpl in *.
  - destruct (Hk a w1) as (r2 & H2 & L2). exists (r1 ++ r2).
    rewrite H2, H1, forallb_app, L1, L2. by rewrite app_assoc.
  - eauto.
Qed.

Lemma emits_try_except P {A} (m : M A) (h : Exception -> M A) :
  emits P m -> (forall e, emits P (h e)) -> emits P (try_except m h).
Proof.
  intros Hm Hh w. unfold try_except. destruct (Hm w) as (r1 & H1 & L1).
  destruct (m w) as [[a|e] w1]; simpl in *.
  - eauto.
  - destruct (Hh e w1) as (r2 & H2 & L2). exists (r1 ++ r2).
    rewrite H2, H1, forallb_app, L1, L2. by rewrite app_assoc.
Qed.

Lemma emits_if P {A} (b : bool) (m1 m2 : M A) :
  emits P m1 -> emits P m2 -> emits P (if b then m1 else m2).
Proof. destruct b; auto. Qed.

Ltac emits_tac :=
  repeat first
    [ progress intros
    | apply emits_ret | apply emits_raise
    | apply emits_invoke; reflexivity
    | apply emits_save; reflexivity
    | apply (emits_state _ (fun _ => tt)) | apply (emits_state _ output (fun o => o))
    | apply emits_bind | apply emits_try_except | apply emits_if
    | match goal with |- emits _ (match ?x with _ => _ end) => destruct x end ].

Lemma _convert_to_jpeg_no_geometry pil img pil_format :
  emits (fun c => negb (is_geometry c)) (_convert_to_jpeg pil img pil_format).
Proof.
  unfold _convert_to_jpeg, split_last, new, convert, split, paste. emits_tac.
Qed.

Lemma _convert_to_pdf_no_geometry pil img :
  emits (fun c => negb (is_geometry c)) (_convert_to_pdf pil img).
Proof. unfold _convert_to_pdf, convert. emits_tac. Qed.

Lemma emits_output_new P : emits P output_new.
Proof. intros w. exists []. simpl. by rewrite app_nil_r. Qed.

Lemma emits_output_seek0 P : emits P output_seek0.
Proof. intros w. exists []. simpl. by rewrite app_nil_r. Qed.

Lemma emits_output_get P : emits P output_get.
Proof. intros w. exists []. simpl. by rewrite app_nil_r. Qed.

(** X1.  Converting to any format other than ICO never crops and never
    resizes: no [crop] and no [resize] call is made, whatever Pillow does. *)
Theorem non_icon_no_geometry (pil : PIL) (img : Image) (format_name : string) :
  format_name <> "ICO" ->
  emits (fun c => negb (is_geometry c)) (convert_to_format pil img format_name).
Proof.
  intros Hne. apply String.eqb_neq in Hne.
  unfold convert_to_format, convert_body.
  apply emits_try_except; [|intros; apply emits_ret].
  destruct (FORMAT_MAP !! format_name) as [[pil_format extension]|];
    [|apply emits_ret].
  rewrite Hne.
  apply emits_bind; [apply emits_output_new|]. intros _.
  apply emits_bind.
  - repeat apply emits_if.
    + apply _convert_to_jpeg_no_geometry.
    + apply _convert_to_pdf_no_geometry.
    + emits_tac.
  - intros b. apply emits_if; [apply emits_ret|].
    apply emits_bind; [apply emits_output_seek0|]. intros _.
    apply emits_bind; [apply emits_output_get|]. intros; apply emits_ret.
Qed.

(** An RGBA image converted to JPEG: four calls, none a crop or resize. *)
Lemma non_icon_no_geometry_witness :
  "JPEG" <> "ICO" /\
  exists rest,
    calls (convert_to_format Toy.ok (Toy.rgba 400 300) "JPEG" start).2
      = calls start ++ rest /\
    length rest = 4%nat /\
    forallb (fun c => negb (is_geometry c)) rest = true.
Proof.
  assert (H : "JPEG" <> "ICO") by discriminate.
  split; [exact H|].
  destruct (non_icon_no_geometry Toy.ok (Toy.rgba 400 300) "JPEG" H start)
    as (rest & Hc & Hf).
  change (calls start ++ rest) with rest in Hc. rewrite <- Hc in Hf.
  eexists. split; [reflexivity|]. split; [vm_compute; reflexivity | exact Hf].
Defined.

(** ** Properties: relations every step of a computation keeps *)

Section Preserves.

Variable R : World -> World -> Prop.
Hypothesis R_refl : forall w, R w w.
Hypothesis R_trans : forall w1 w2 w3, R w1 w2 -> R w2 w3 -> R w1 w3.

Lemma preserves_ret {A} (a : A) : preserves R (ret a).
Proof. intros w. apply R_refl. Qed.

Lemma preserves_raise {A} e : preserves R (@raise A e).
Proof. intros w. apply R_refl. Qed.

Lemma preserves_bind {A B} (m : M A) (k : A -> M B) :
  preserves R m -> (forall a, preserves R (k a)) -> preserves R (bind m k).
Proof.
  intros Hm Hk w. unfold bind. specialize (Hm w).
  destruct (m w) as [[a|e] w1]; simpl in *; [|exact Hm].
  eapply R_trans; [exact Hm | apply Hk].
Qed.

Lemma preserves_try_except {A} (m : M A) (h : Exception -> M A) :
  preserves R m -> (forall e, preserves R (h e)) ->
  preserves R (try_except m h).
Proof.
  intros Hm Hh w. unfold try_except. specialize (Hm w).
  destruct (m w) as [[a|e] w1]; simpl in *; [exact Hm|].
  eapply R_trans; [exact Hm | apply Hh].
Qed.

Lemma preserves_if {A} (b : bool) (m1 m2 : M A) :
  preserves R m1 -> preserves R m2 -> preserves R (if b then m1 else m2).
Proof. destruct b; auto. Qed.

End Preserves.

Lemma same_output_refl w : same_output w w.
Proof. reflexivity. Qed.

Lemma same_output_trans w1 w2 w3 :
  same_output w1 w2 -> same_output w2 w3 -> same_output w1 w3.
Proof. unfold same_output. congruence. Qed.

Lemma same_output_invoke {A} c (r : Outcome A) :
  preserves same_output (invoke c r).
Proof. intros w. reflexivity. Qed.

(** Everything but [save] and the operations on [output] itself leaves
    [output] alone. *)
Ltac same_output_tac :=
  repeat first
    [ progress intros
    | apply (preserves_ret _ same_output_refl)
    | apply (preserves_raise _ same_output_refl)
    | apply same_output_invoke
    | apply (preserves_bind _ same_output_trans)
    | apply (preserves_try_except _ same_output_trans)
    | apply preserves_if
    | match goal with |- preserves _ (match ?x with _ => _ end) => destruct x end ].

Lemma ico_resized_same_output pil img sz :
  preserves same_output (ico_resized pil img sz).
Proof. unfold ico_resized, crop, resize, copy, convert. same_output_tac. Qed.

(** Some steps that leave [output] alone, then a [save], then [True]. *)
Lemma prepare_then_save pil {A} (prepare : M A) (im : A -> Image) args w w' :
  preserves same_output prepare -> extends prepare ->
  (x <- prepare ;; save pil (im x) args ;;; ret true) w = (Returned true, w') ->
  saved_last pil w w' (output w) (output w').
Proof.
  intros Hout Hext H.
  apply bind_inv in H as (x & wa & Hx & H).
  apply bind_inv in H as ([] & wb & Hsave & H).
  apply ret_inv in H as (_ & Hc & Ho). rewrite app_nil_r in Hc.
  apply save_inv in Hsave as (Hr & Hcs & Hos).
  specialize (Hout w). specialize (Hext w) as [rest Hrest].
  rewrite Hx in Hout, Hrest. simpl in Hout, Hrest. unfold same_output in Hout.
  exists rest, (im x), args. split.
  - rewrite Hc, Hcs, Hrest, <- app_assoc. reflexivity.
  - rewrite Ho, Hos, <- Hout.
    destruct (pil_save pil (im x) args (output wa)) as [out r]. simpl in *.
    by rewrite Hr.
Qed.

Lemma _convert_to_jpeg_saved_last pil img pil_format w w' :
  _convert_to_jpeg pil img pil_format w = (Returned true, w') ->
  saved_last pil w w' (output w) (output w').
Proof.
  intros H. apply try_except_true_inv in H.
  eapply (prepare_then_save pil _ (fun x => x)); [| |exact H].
  - unfold new, convert, split_last, split, paste. same_output_tac.
  - unfold new, convert, split_last, split, paste. extends_tac.
Qed.

Lemma _convert_to_pdf_saved_last pil img w w' :
  _convert_to_pdf pil img w = (Returned true, w') ->
  saved_last pil w w' (output w) (output w').
Proof.
  intros H. apply try_except_true_inv in H.
  eapply (prepare_then_save pil _ (fun x => x)); [| |exact H].
  - unfold convert. same_output_tac.
  - unfold convert. extends_tac.
Qed.

Lemma ico_primary_saved_last pil img w b w' :
  ico_primary pil img w = (Returned b, w') ->
  b = true /\
  exists out, saved_last pil w w' (output w) out /\ output w' = seek0 out.
Proof.
  rewrite ico_primary_single. intros H.
  apply bind_inv in H as (resized & wa & Hres & H).
  apply bind_inv in H as ([] & wb & Hsave & H).
  apply bind_inv in H as ([] & wc & Hseek & H).
  apply ret_inv in H as (-> & Hc & Ho). rewrite app_nil_r in Hc.
  unfold output_seek0 in Hseek. injection Hseek as <-.
  apply save_inv in Hsave as (Hr & Hcs & Hos).
  pose proof (ico_resized_same_output pil img
                (spec_icon_size (Z.min (width img) (height img))) w) as Hout.
  destruct (extends_ico_resized pil img
              (spec_icon_size (Z.min (width img) (height img))) w)
    as [rest Hrest].
  rewrite Hres in Hout, Hrest. unfold same_output in Hout. simpl in Hout, Hrest.
  split; [reflexivity|].
  exists (pil_save pil resized (primary_args resized) (output w)).1. split.
  - exists rest, resized, (primary_args resized). split.
    + rewrite Hc. simpl. rewrite Hcs, Hrest, <- app_assoc. reflexivity.
    + rewrite Hout in Hr.
      destruct (pil_save pil resized (primary_args resized) (output w)).
      simpl in *. by rewrite Hr.
  - rewrite Ho. simpl. rewrite Hos, Hout. reflexivity.
Qed.

Lemma ico_fallback_saved_last pil img w1 b w2 :
  ico_fallback pil img w1 = (Returned b, w2) ->
  b = true /\
  exists out, saved_last pil w1 w2 (output w1) out /\ output w2 = seek0 out.
Proof.
  intros H. apply ico_fallback_returned in H.
  destruct H as (-> & square & resized & final & _ & _ & _ & Hc & Hr & Ho).
  split; [reflexivity|].
  exists (pil_save pil final fallback_args (output w1)).1. split; [|exact Ho].
  unfold fallback_calls in Hc.
  match type of Hc with _ = _ ++ ?A ++ ?B ++ ?C ++ _ =>
    exists (A ++ B ++ C), final, fallback_args
  end.
  split.
  - rewrite Hc, <- !app_assoc. reflexivity.
  - destruct (pil_save pil final fallback_args (output w1)). simpl in *.
    by rewrite Hr.
Qed.

(** When the primary attempt raises, [output] holds what its [save] left
    there, which is nothing if the [save] was not reached or is atomic. *)
Lemma ico_primary_raised_output pil img w e w1 :
  save_atomic pil ->
  ico_primary pil img w = (Raised e, w1) -> output w1 = output w.
Proof.
  intros Hatomic. rewrite ico_primary_single. unfold bind.
  pose proof (ico_resized_same_output pil img
                (spec_icon_size (Z.min (width img) (height img))) w) as Hout.
  destruct (ico_resized pil img _ w) as [[resized|e'] wa]; simpl in Hout;
    unfold same_output in Hout.
  - unfold save.
    destruct (pil_save pil resized (primary_args resized) (output wa))
      as [out [[]|e']] eqn:Hs; simpl; [discriminate|].
    intros [= _ <-]. simpl. rewrite (Hatomic _ _ _ _ _ Hs). exact Hout.
  - intros [= _ <-]. exact Hout.
Qed.

Lemma _convert_to_ico_saved_last pil img w w' :
  _convert_to_ico pil img w = (Returned true, w') ->
  exists o out,
    saved_last pil w w' o out /\ output w' = seek0 out /\
    (save_atomic pil -> o = output w).
Proof.
  unfold _convert_to_ico, try_except.
  destruct (ico_primary pil img w) as [[b|e] w1] eqn:Hp.
  - intros [= -> <-].
    apply ico_primary_saved_last in Hp as (_ & out & Hs & Ho).
    exists (output w), out. auto.
  - destruct (ico_fallback pil img w1) as [[b|e'] w2] eqn:Hf;
      [|unfold ret; discriminate].
    intros [= -> <-].
    apply ico_fallback_saved_last in Hf as (_ & out & Hs & Ho).
    exists (output w1), out. split; [|split; [exact Ho|]].
    + destruct Hs as (rest & im & args & Hc & Hsv).
      destruct (extends_ico_primary pil img w) as [rest1 Hrest1].
      rewrite Hp in Hrest1. simpl in Hrest1.
      exists (rest1 ++ rest), im, args. split; [|exact Hsv].
      rewrite Hc, Hrest1, <- !app_assoc. reflexivity.
    + intros Hatomic. eapply ico_primary_raised_output; eauto.
Qed.

(** Where the stream of a successful conversion comes from. *)
Lemma success_stream_origin pil img format_name w buffer msg w' :
  convert_to_format pil img format_name w
    = (Returned (true, buffer, msg), w') ->
  msg = "" /\ tell buffer = 0%nat /\ output w' = buffer /\
  exists o out,
    saved_last pil w w' o out /\ buffer = seek0 out /\
    (format_name <> "ICO" \/ save_atomic pil -> o = BytesIO_new).
Proof.
  unfold convert_to_format, try_except.
  destruct (convert_body pil img format_name w) as [[r|e] w0] eqn:Hb;
    [|unfold ret; discriminate].
  intros [= -> <-]. revert Hb. unfold convert_body.
  destruct (FORMAT_MAP !! format_name) as [[pil_format extension]|];
    [|unfold ret; discriminate].
  intros H. apply bind_inv in H as ([] & wa & Hnew & H).
  unfold output_new in Hnew. injection Hnew as <-.
  apply bind_inv in H as (b & wb & Hconv & H).
  destruct b; simpl negb in H; cbv iota in H; [|unfold ret in H; discriminate].
  unfold bind, output_seek0, output_get, ret in H. simpl in H.
  injection H as <- <- <-. simpl.
  split; [reflexivity|]. split; [reflexivity|]. split; [reflexivity|].
  set (w1 := {| output := BytesIO_new; calls := calls w |}) in *.
  assert (exists o out, saved_last pil w1 wb o out /\
            seek0 (output wb) = seek0 out /\
            (format_name <> "ICO" \/ save_atomic pil -> o = BytesIO_new))
    as (o & out & Hs & Hout & Ho').
  { destruct (String.eqb_spec format_name "ICO") as [->|Hico].
    - apply _convert_to_ico_saved_last in Hconv as (o & out & Hs & Hout & Ha).
      exists o, out. split; [exact Hs|]. split; [by rewrite Hout|].
      intros [?|Hatomic]; [done | exact (Ha Hatomic)].
    - assert (saved_last pil w1 wb (output w1) (output wb)) as Hs.
      { destruct (String.eqb format_name "JPEG");
          [by apply _convert_to_jpeg_saved_last in Hconv|].
        destruct (String.eqb format_name "PDF");
          [by apply _convert_to_pdf_saved_last in Hconv|].
        eapply (prepare_then_save pil (ret img) (fun x => x)); [| |exact Hconv].
        - apply (preserves_ret _ same_output_refl).
        - apply extends_ret. }
      exists (output w1), (output wb). auto. }
  exists o, out. split; [|split; [exact Hout | exact Ho']].
  destruct Hs as (rest & im & args & Hc & Hsv).
  exists rest, im, args. split; [exact Hc | exact Hsv].
Qed.

(** X2.  A successful conversion returns, rewound to position 0 and with
    an empty message, exactly what its last Pillow call, a [save] that
    returned, left in the file object; for every format but ICO that [save]
    was handed a fresh empty buffer. *)
Theorem success_is_last_save (pil : PIL) (img : Image) (format_name : string)
    (w : World) (buffer : BytesIO) (msg : string) (w' : World) :
  convert_to_format pil img format_name w
    = (Returned (true, buffer, msg), w') ->
  msg = "" /\ tell buffer = 0%nat /\ output w' = buffer /\
  exists o out,
    saved_last pil w w' o out /\ buffer = seek0 out /\
    (format_name <> "ICO" -> o = BytesIO_new).
Proof.
  intros H. apply success_stream_origin in H
    as (Hm & Ht & Ho & o & out & Hs & Hb & Hfresh).
  repeat split; try assumption. exists o, out. auto.
Qed.

(** A 300x200 RGB image converted to PNG. *)
Lemma success_is_last_save_witness :
  let img := Toy.rgb 300 200 in
  exists buffer w',
    convert_to_format Toy.ok img "PNG" start = (Returned (true, buffer, ""), w') /\
    tell buffer = 0%nat /\
    exists o out, saved_last Toy.ok start w' o out /\ buffer = seek0 out /\
                  ("PNG" <> "ICO" -> o = BytesIO_new).
Proof.
  cbv zeta. do 2 eexists.
  refine (let H := success_is_last_save Toy.ok (Toy.rgb 300 200) "PNG" start
                     _ _ _ eq_refl in _).
  destruct H as (_ & Ht & _ & H). split; [reflexivity|]. split; [exact Ht | exact H].
Defined.

(** X3.  With a Pillow whose [save] leaves the file object untouched when
    it raises, every successful conversion, ICO and its fallback included,
    returns what one [save] wrote into a fresh empty buffer. *)
Theorem atomic_when_save_is_atomic (pil : PIL) (img : Image)
    (format_name : string) (w : World) (buffer : BytesIO) (msg : string)
    (w' : World) :
  save_atomic pil ->
  convert_to_format pil img format_name w
    = (Returned (true, buffer, msg), w') ->
  exists out, saved_last pil w w' BytesIO_new out /\ buffer = seek0 out.
Proof.
  intros Hatomic H. apply success_stream_origin in H
    as (_ & _ & _ & o & out & Hs & Hb & Hfresh).
  rewrite Hfresh in Hs by auto. eauto.
Qed.

(** A 10x10 16-bit image whose primary attempt raises in [resize]: the
    fallback encodes into the untouched buffer. *)
Lemma atomic_when_save_is_atomic_witness :
  let img := Toy.gray16 10 10 in
  save_atomic Toy.lanczos_rejects /\
  exists buffer w',
    convert_to_format Toy.lanczos_rejects img "ICO" start
      = (Returned (true, buffer, ""), w') /\
    getvalue buffer = [x00; x00; x01; x00; x0a; x0a] /\
    exists out, saved_last Toy.lanczos_rejects start w' BytesIO_new out /\
                buffer = seek0 out.
Proof.
  cbv zeta.
  assert (Ha : save_atomic Toy.lanczos_rejects).
  { intros im args o out e. simpl.
    destruct (String.eqb (sa_format args) "ICO"); discriminate. }
  split; [exact Ha|]. do 2 eexists.
  refine (let H := atomic_when_save_is_atomic Toy.lanczos_rejects
                     (Toy.gray16 10 10) "ICO" start _ _ _ Ha eq_refl in _).
  split; [reflexivity|]. split; [reflexivity | exact H].
Defined.

(** X4.  For ICO, JPEG and PDF the encoder's own handler swallows every
    exception, so a failed conversion always carries the fixed reason that
    names the format, never the text of the exception. *)
Theorem specialized_failure_reason (pil : PIL) (img : Image)
    (format_name : string) (w : World) :
  format_name ∈ ["ICO"; "JPEG"; "PDF"] ->
  exists r w',
    convert_to_format pil img format_name w = (Returned r, w') /\
    (r.1.1 = true \/
     r = (false, BytesIO_new, "Не удалось конвертировать в " +:+ format_name)).
Proof.
  rewrite !elem_of_cons, elem_of_nil. intros H.
  assert (exists helper : M bool,
            returns helper /\
            convert_body pil img format_name w =
              (output_new ;;;
               converted_img <- helper ;;
               if negb converted_img then
                 ret (false, BytesIO_new,
                      "Не удалось конвертировать в " +:+ format_name)
               else output_seek0 ;;; out <- output_get ;; ret (true, out, "")) w)
    as (helper & Hret & Hbody).
  { destruct H as [->|[->|[->|[]]]].
    - exists (_convert_to_ico pil img).
      split; [apply _convert_to_ico_returns | reflexivity].
    - exists (_convert_to_jpeg pil img "JPEG").
      split; [apply _convert_to_jpeg_returns | reflexivity].
    - exists (_convert_to_pdf pil img).
      split; [apply _convert_to_pdf_returns | reflexivity]. }
  unfold convert_to_format, try_except. rewrite Hbody.
  unfold bind at 1. simpl.
  destruct (Hret {| output := BytesIO_new; calls := calls w |})
    as (b & wb & Hb).
  rewrite (bind_returned _ _ _ _ _ Hb).
  destruct b; simpl; do 2 eexists; (split; [reflexivity|]); simpl; auto.
Qed.

(** JPEG with a Pillow whose [save] raises "encoder error". *)
Lemma specialized_failure_reason_witness :
  ("JPEG" ∈ ["ICO"; "JPEG"; "PDF"]) /\
  exists w',
    convert_to_format Toy.save_fails (Toy.rgb 300 200) "JPEG" start =
      (Returned (false, BytesIO_new, "Не удалось конвертировать в JPEG"), w').
Proof.
  assert (H : "JPEG" ∈ ["ICO"; "JPEG"; "PDF"]) by compute_done.
  split; [exact H|].
  destruct (specialized_failure_reason Toy.save_fails (Toy.rgb 300 200)
              "JPEG" start H) as (r & w' & Hr & _).
  exists (convert_to_format Toy.save_fails (Toy.rgb 300 200) "JPEG" start).2.
  vm_compute. reflexivity.
Defined.

(** ** The icon encoder: how the resolution relates to the source *)

(** X6.  The resolution the primary icon path selects is between 16 and
    256; it never exceeds the shorter side of a source of at least 16 pixels
    (no upscaling), is more than half of it below 512 pixels, and is 16 for
    every smaller source (which is upscaled); a larger source never gets a
    smaller resolution. *)
Theorem ico_size_fits_source (base sz : Z) :
  sz ∈ ico_sizes base ->
  16 <= sz <= 256 /\
  (16 <= base -> sz <= base) /\
  (16 <= base < 512 -> base < 2 * sz) /\
  (base < 16 -> sz = 16) /\
  (forall base' sz', base <= base' -> sz' ∈ ico_sizes base' -> sz <= sz').
Proof.
  rewrite ico_sizes_single. intros ->%list_elem_of_singleton.
  unfold spec_icon_size.
  repeat split; try (repeat case_match; lia).
  intros base' sz' Hle. rewrite ico_sizes_single.
  intros ->%list_elem_of_singleton. unfold spec_icon_size.
  repeat case_match; lia.
Qed.

(** A 100x150 source: base 100 gives 64. *)
Lemma ico_size_fits_source_witness :
  (64 ∈ ico_sizes (Z.min 100 150)) /\ 64 <= Z.min 100 150 /\ Z.min 100 150 < 2 * 64.
Proof.
  assert (H : 64 ∈ ico_sizes (Z.min 100 150)) by compute_done.
  destruct (ico_size_fits_source (Z.min 100 150) 64 H) as (_ & Hle & Hhalf & _).
  split; [exact H|]. split; [apply Hle | apply Hhalf]; lia.
Defined.

Lemma calls_invoke_then P {A B} c (r : Outcome A) (k : A -> M B) w :
  (forall a, emits P (k a)) ->
  exists rest,
    calls (bind (invoke c r) k w).2 = calls w ++ c :: rest /\
    forallb P rest = true.
Proof.
  intros Hk. rewrite calls_bind_invoke. destruct r as [a|e].
  - destruct (Hk a (mkWorld (output w) (calls w ++ [c]))) as (rest & -> & Hf).
    exists rest. simpl. by rewrite <- app_assoc.
  - by exists [].
Qed.

(** X7.  A square image that already has the selected resolution is copied,
    not resampled; any other square image is resized as it is, without a
    crop.  In both cases no further crop or resize follows. *)
Theorem square_copied_or_resized (pil : PIL) (img : Image) (w : World) :
  width img = height img ->
  let s := spec_icon_size (width img) in
  exists rest,
    calls (ico_primary pil img w).2 =
      calls w ++
      (if width img =? s then CallCopy img else CallResize img (s, s)) :: rest /\
    forallb (fun c => negb (is_geometry c)) rest = true.
Proof.
  intros Hsq s. rewrite ico_primary_single.
  rewrite <- Hsq, Z.min_id. fold s. unfold ico_resized.
  rewrite <- Hsq, Z.eqb_refl. simpl negb at 3. cbv iota.
  destruct (width img =? s); simpl negb; simpl orb; cbv iota.
  - rewrite (bind_assoc (copy pil img) _ _ w).
    unfold copy. apply calls_invoke_then.
    unfold convert. emits_tac.
  - rewrite (bind_assoc (bind (ret img) _) _ _ w).
    rewrite (bind_assoc (ret img) _ _ w).
    change (bind (ret img) ?k w) with (k img w). cbv beta.
    unfold resize. apply calls_invoke_then. unfold convert. emits_tac.
Qed.

(** A 64x64 image is copied; a 100x100 image is resized to 64x64. *)
Lemma square_copied_or_resized_witness :
  (width (Toy.rgb 64 64) = height (Toy.rgb 64 64) /\
   exists rest, calls (ico_primary Toy.ok (Toy.rgb 64 64) start).2
                = CallCopy (Toy.rgb 64 64) :: rest) /\
  (width (Toy.rgb 100 100) = height (Toy.rgb 100 100) /\
   exists rest, calls (ico_primary Toy.ok (Toy.rgb 100 100) start).2
                = CallResize (Toy.rgb 100 100) (64, 64) :: rest).
Proof.
  split; (split; [reflexivity|]).
  - destruct (square_copied_or_resized Toy.ok (Toy.rgb 64 64) start eq_refl)
      as (rest & H & _). exists rest. exact H.
  - destruct (square_copied_or_resized Toy.ok (Toy.rgb 100 100) start eq_refl)
      as (rest & H & _). exists rest. exact H.
Defined.

(** ** Properties: the icon encoder with a Pillow that does what it is asked *)

Lemma toy_ok_well_behaved : well_behaved Toy.ok.
Proof.
  split; simpl.
  - intros im l t r b im' [= <-]. auto.
  - intros im [sw sh] im' [= <-]. auto.
  - intros im im' [= <-]. auto.
  - intros im target im' [= <-]. auto.
Qed.

Lemma str_in_icon_mode md : str_in md ["RGB"; "RGBA"] = true <-> icon_mode md.
Proof.
  unfold str_in, icon_mode. simpl. rewrite !orb_true_iff, !String.eqb_eq.
  intuition discriminate.
Qed.

Lemma ico_resized_well_behaved pil img sz w resized wa :
  well_behaved pil ->
  ico_resized pil img sz w = (Returned resized, wa) ->
  size resized = (sz, sz) /\ icon_mode (mode resized) /\
  (icon_mode (mode img) -> mode resized = mode img).
Proof.
  intros Hwb H. unfold ico_resized in H.
  apply bind_inv in H as (r0 & w0 & Hgeo & Hmode).
  assert (size r0 = (sz, sz) /\ mode r0 = mode img) as [Hsz Hmd].
  { destruct (Z.eqb_spec (width img) sz) as [Hw|Hw],
             (Z.eqb_spec (height img) sz) as [Hh|Hh]; simpl in Hgeo.
    1: { apply invoke_inv in Hgeo as (Hc & _).
         apply (copy_spec _ Hwb) in Hc as (Hs & Hm & _).
         rewrite Hs. unfold size. split; [congruence | exact Hm]. }
    all: apply bind_inv in Hgeo as (sq & w1 & Hsq & Hrs);
      apply invoke_inv in Hrs as (Hrs & _);
      apply (resize_spec _ Hwb) in Hrs as (Hs & Hm & _);
      (split; [exact Hs|]); rewrite Hm;
      destruct (width img =? height img); simpl in Hsq;
      [ by apply ret_inv in Hsq as (-> & _)
      | apply invoke_inv in Hsq as (Hsq & _); unfold crop_box in Hsq;
        by apply (crop_spec _ Hwb) in Hsq as (_ & Hm' & _) ]. }
  destruct (String.eqb_spec (mode r0) "RGBA") as [E1|E1].
  { apply ret_inv in Hmode as (-> & _).
    split; [exact Hsz|]. split; [by right | congruence]. }
  destruct (String.eqb_spec (mode r0) "RGB") as [E2|E2].
  { apply ret_inv in Hmode as (-> & _).
    split; [exact Hsz|]. split; [by left | congruence]. }
  assert (size resized = size r0 /\ mode resized = "RGBA") as [Hs Hm].
  { destruct (String.eqb (mode r0) "P");
      [|destruct (str_in (mode r0) ["L"; "LA"])];
      apply invoke_inv in Hmode as (Hc & _);
      by apply (convert_spec _ Hwb) in Hc. }
  rewrite Hs, Hm. split; [exact Hsz|]. split; [by right|].
  intros [Hi|Hi]; congruence.
Qed.

(** X8.  With a Pillow that does what it is asked, a primary icon run that
    returns has returned [True] after saving, as its last call, one image of
    exactly s x s pixels in mode RGB or RGBA, with the declared sizes
    [(s, s)], where s is the selected resolution, between 16 and 256; an RGB
    or RGBA source keeps its mode. *)
Theorem ico_primary_emits (pil : PIL) (img : Image) (w : World) (b : bool)
    (w' : World) :
  well_behaved pil ->
  ico_primary pil img w = (Returned b, w') ->
  let s := spec_icon_size (Z.min (width img) (height img)) in
  b = true /\ 16 <= s <= 256 /\
  exists rest saved,
    calls w' = calls w ++ rest ++
      [CallSave saved
         (mkSaveArgs "ICO" None None (Some [(s, s)]) (Some "bmp") None)] /\
    size saved = (s, s) /\
    icon_mode (mode saved) /\
    (icon_mode (mode img) -> mode saved = mode img).
Proof.
  intros Hwb H s. rewrite ico_primary_single in H. fold s in H.
  apply bind_inv in H as (resized & wa & Hres & H).
  apply bind_inv in H as ([] & wb & Hsave & H).
  apply bind_inv in H as ([] & wc & Hseek & H).
  apply ret_inv in H as (-> & Hc & _). rewrite app_nil_r in Hc.
  unfold output_seek0 in Hseek. injection Hseek as <-. simpl in Hc.
  apply save_inv in Hsave as (_ & Hcs & _).
  destruct (extends_ico_resized pil img s w) as [rest Hrest].
  rewrite Hres in Hrest. simpl in Hrest.
  apply (ico_resized_well_behaved pil img s w resized wa Hwb) in Hres
    as (Hsz & Hmd & Hkeep).
  split; [reflexivity|]. split.
  { apply (ico_sizes_bounds (Z.min (width img) (height img))).
    rewrite ico_sizes_single. by apply list_elem_of_singleton. }
  exists rest, resized. split; [|auto].
  rewrite Hc, Hcs, Hrest, <- app_assoc. unfold primary_args.
  unfold size in Hsz. injection Hsz as -> ->. reflexivity.
Qed.

(** A 500x400 palette image: cropped, resized to 256x256, converted to
    RGBA and saved. *)
Lemma ico_primary_emits_witness :
  let img := Toy.palette 500 400 in
  well_behaved Toy.ok /\
  (ico_primary Toy.ok img start).1 = Returned true /\
  exists rest,
    calls (ico_primary Toy.ok img start).2 = rest ++
      [CallSave (Toy.rgba 256 256)
         (mkSaveArgs "ICO" None None (Some [(256, 256)]) (Some "bmp") None)].
Proof.
  cbv zeta. split; [exact toy_ok_well_behaved|]. split; [reflexivity|].
  destruct (ico_primary_emits Toy.ok (Toy.palette 500 400) start true
              (ico_primary Toy.ok (Toy.palette 500 400) start).2
              toy_ok_well_behaved eq_refl)
    as (_ & _ & rest & saved & Hc & _).
  exists [CallCrop (Toy.palette 500 400) (50, 0, 450, 400);
          CallResize (Toy.palette 400 400) (256, 256);
          CallConvert (Toy.palette 256 256) "RGBA"].
  vm_compute. reflexivity.
Defined.

(** X9.  With a Pillow that does what it is asked, a fallback icon run that
    returns has saved, as its last call and with the minimal options, one
    square image of side min(256, base) in mode RGB or RGBA; an RGB or RGBA
    source keeps its mode.  The side is at most 256, and at least 1 for a
    source of at least one pixel. *)
Theorem ico_fallback_emits (pil : PIL) (img : Image) (w : World) (b : bool)
    (w' : World) :
  well_behaved pil ->
  ico_fallback pil img w = (Returned b, w') ->
  let s := Z.min 256 (Z.min (width img) (height img)) in
  b = true /\ s <= 256 /\ (1 <= width img -> 1 <= height img -> 1 <= s) /\
  exists rest saved,
    calls w' = calls w ++ rest ++ [CallSave saved fallback_args] /\
    size saved = (s, s) /\
    icon_mode (mode saved) /\
    (icon_mode (mode img) -> mode saved = mode img).
Proof.
  intros Hwb H s. apply ico_fallback_returned in H. fold s in H.
  destruct H as (-> & square & resized & final & Hsq & Hrs & Hfi & Hc & _).
  split; [reflexivity|]. split; [unfold s; lia|]. split; [unfold s; lia|].
  assert (size square = (Z.min (width img) (height img),
                         Z.min (width img) (height img))
          /\ mode square = mode img /\ info square = info img)
    as (Hsz1 & Hmd1 & Hin1).
  { destruct (Z.eqb_spec (width img) (height img)) as [E|E].
    - subst square. unfold size. rewrite <- E, Z.min_id. auto.
    - unfold crop_box in Hsq. apply (crop_spec _ Hwb) in Hsq as (Hs & Hm & Hi).
      split; [|auto]. rewrite Hs. f_equal; lia. }
  assert (size resized = (s, s) /\ mode resized = mode img) as (Hsz2 & Hmd2).
  { destruct (bool_decide (size square = (s, s))) eqn:E.
    - subst resized. apply bool_decide_eq_true in E. auto.
    - apply (resize_spec _ Hwb) in Hrs as (Hs & Hm & _).
      split; [exact Hs | congruence]. }
  assert (size final = (s, s) /\ icon_mode (mode final) /\
          (icon_mode (mode img) -> mode final = mode img)) as Hfinal.
  { destruct (str_in (mode resized) ["RGB"; "RGBA"]) eqn:E.
    - subst final. apply str_in_icon_mode in E.
      split; [exact Hsz2|]. split; [exact E | auto].
    - apply (convert_spec _ Hwb) in Hfi as (Hs & Hm).
      split; [congruence|]. split.
      + rewrite Hm. unfold fallback_target, icon_mode.
        destruct (_ || _); auto.
      + intros Hi. rewrite <- Hmd2 in Hi. apply str_in_icon_mode in Hi.
        congruence. }
  unfold fallback_calls in Hc. fold s in Hc.
  match type of Hc with _ = _ ++ ?A ++ ?B ++ ?C ++ _ =>
    exists (A ++ B ++ C), final
  end.
  split; [|exact Hfinal]. rewrite Hc, <- !app_assoc. reflexivity.
Qed.

(** The 10x10 16-bit image of the fallback: saved at 10x10 in RGB. *)
Lemma ico_fallback_emits_witness :
  let img := Toy.gray16 10 10 in
  well_behaved Toy.ok /\
  (ico_fallback Toy.ok img start).1 = Returned true /\
  exists rest saved,
    calls (ico_fallback Toy.ok img start).2
      = calls start ++ rest ++ [CallSave saved fallback_args] /\
    size saved = (10, 10) /\ icon_mode (mode saved).
Proof.
  cbv zeta. split; [exact toy_ok_well_behaved|]. split; [reflexivity|].
  destruct (ico_fallback_emits Toy.ok (Toy.gray16 10 10) start true
              (ico_fallback Toy.ok (Toy.gray16 10 10) start).2
              toy_ok_well_behaved eq_refl)
    as (_ & _ & _ & rest & saved & Hc & Hs & Hm & _).
  exists rest, saved. auto.
Defined.

(** ** Properties: compositing *)

Lemma _convert_to_ico_no_composite pil img :
  emits (fun c => negb (is_composite c)) (_convert_to_ico pil img).
Proof.
  unfold _convert_to_ico. apply emits_try_except.
  - intros w. rewrite ico_primary_single. revert w.
    unfold ico_resized, crop, resize, copy, convert. emits_tac.
  - intros e. unfold ico_fallback, crop, resize, convert. emits_tac.
Qed.

(** X10.  Only the JPEG encoder composites: converting to any other format
    never creates a background, never splits bands and never pastes, so
    transparency is never blended for ICO, PDF or the generic formats. *)
Theorem only_jpeg_composites (pil : PIL) (img : Image) (format_name : string) :
  format_name <> "JPEG" ->
  emits (fun c => negb (is_composite c)) (convert_to_format pil img format_name).
Proof.
  intros Hne. apply String.eqb_neq in Hne.
  unfold convert_to_format, convert_body.
  apply emits_try_except; [|intros; apply emits_ret].
  destruct (FORMAT_MAP !! format_name) as [[pil_format extension]|];
    [|apply emits_ret].
  rewrite Hne.
  apply emits_bind; [apply emits_output_new|]. intros _.
  apply emits_bind.
  - repeat apply emits_if.
    + apply _convert_to_ico_no_composite.
    + unfold _convert_to_pdf, convert. emits_tac.
    + emits_tac.
  - intros b. apply emits_if; [apply emits_ret|].
    apply emits_bind; [apply emits_output_seek0|]. intros _.
    apply emits_bind; [apply emits_output_get|]. intros; apply emits_ret.
Qed.

(** An RGBA image converted to PDF: a conversion to RGB and a save. *)
Lemma only_jpeg_composites_witness :
  "PDF" <> "JPEG" /\
  calls (convert_to_format Toy.ok (Toy.rgba 40 30) "PDF" start).2 =
    [CallConvert (Toy.rgba 40 30) "RGB";
     CallSave (Toy.rgb 40 30) (mkSaveArgs "PDF" (Some true) None None None None)].
Proof.
  assert (H : "PDF" <> "JPEG") by discriminate.
  split; [exact H|].
  destruct (only_jpeg_composites Toy.ok (Toy.rgba 40 30) "PDF" H start)
    as (rest & Hc & _).
  vm_compute. reflexivity.
Defined.

(** X11.  An LA image converted to JPEG is pasted onto the white background
    with no mask: a successful run is the creation of the background, the
    paste without a mask and the save of the result, and its alpha band is
    never taken. *)
Theorem jpeg_gray_alpha_unmasked (pil : PIL) (img : Image)
    (pil_format : string) (w w' : World) :
  mode img = "LA" ->
  _convert_to_jpeg pil img pil_format w = (Returned true, w') ->
  exists background flat,
    pil_new pil "RGB" (size img) (255, 255, 255) = Returned background /\
    pil_paste pil background img None = Returned flat /\
    calls w' = calls w ++
      [CallNew "RGB" (size img) (255, 255, 255);
       CallPaste background img None;
       CallSave flat (jpeg_args pil_format)].
Proof.
  intros Hmode H. apply try_except_true_inv in H.
  rewrite Hmode in H at 1. simpl str_in in H. cbv iota in H.
  apply bind_inv in H as (flat & wc & Hflat & H).
  apply bind_inv in Hflat as (background & wa & Hnew & Hflat).
  apply invoke_inv in Hnew as (Hn & Hca & _).
  rewrite Hmode in Hflat at 1. simpl String.eqb in Hflat. cbv iota in Hflat.
  apply bind_inv in Hflat as (src & wb & Hsrc & Hflat).
  apply ret_inv in Hsrc as (-> & Hcb & _). rewrite app_nil_r in Hcb.
  rewrite Hmode in Hflat at 1. simpl String.eqb in Hflat. cbv iota in Hflat.
  apply bind_inv in Hflat as (mask & wm & Hmask & Hpaste).
  apply ret_inv in Hmask as (-> & Hcm & _). rewrite app_nil_r in Hcm.
  apply invoke_inv in Hpaste as (Hp & Hcc & _).
  apply bind_inv in H as ([] & wd & Hsave & H).
  apply ret_inv in H as (_ & Hce & _). rewrite app_nil_r in Hce.
  apply save_inv in Hsave as (_ & Hcd & _).
  exists background, flat. split; [exact Hn|]. split; [exact Hp|].
  rewrite Hce, Hcd, Hcc, Hcm, Hcb, Hca, <- !app_assoc. reflexivity.
Qed.

(** A 4x4 LA image. *)
Lemma jpeg_gray_alpha_unmasked_witness :
  let img := Toy.gray_alpha 4 4 in
  mode img = "LA" /\
  exists background flat,
    calls (_convert_to_jpeg Toy.ok img "JPEG" start).2 =
      [CallNew "RGB" (4, 4) (255, 255, 255);
       CallPaste background img None;
       CallSave flat (jpeg_args "JPEG")].
Proof.
  cbv zeta. split; [reflexivity|].
  destruct (jpeg_gray_alpha_unmasked Toy.ok (Toy.gray_alpha 4 4) "JPEG" start
              (_convert_to_jpeg Toy.ok (Toy.gray_alpha 4 4) "JPEG" start).2
              eq_refl eq_refl)
    as (background & flat & _ & _ & Hc).
  exists background, flat. exact Hc.
Defined.

(** ** Properties: the bot around the converter *)

Lemma validate_image_cases (img : Image) (format : option string) :
  let big := "Изображение слишком большое. Максимальный размер: 4096x4096" in
  validate_image img format =
    if (width img >? 4096) || (height img >? 4096) then (false, Some big)
    else if (width img <? 1) || (height img <? 1)
    then (false, Some "Некорректные размеры изображения")
    else if negb (format_known format)
    then (false, Some "Не удалось определить формат изображения")
    else (true, None).
Proof. reflexivity. Qed.

Lemma validate_image_accepted_bounds (img : Image) (format : option string) :
  validate_image img format = (true, None) ->
  1 <= width img <= 4096 /\ 1 <= height img <= 4096 /\
  format_known format = true.
Proof.
  rewrite validate_image_cases. cbv zeta.
  destruct (Z.gtb_spec (width img) 4096), (Z.gtb_spec (height img) 4096);
    simpl orb; cbv iota; try discriminate.
  destruct (Z.ltb_spec (width img) 1), (Z.ltb_spec (height img) 1);
    simpl orb; cbv iota; try discriminate.
  destruct (format_known format); simpl negb; cbv iota; [|discriminate].
  intros _. lia.
Qed.

(** X12.  The validator accepts an image exactly when both dimensions are
    between 1 and 4096 and its format is known; every rejection carries a
    non-empty message, and an image with a side above 4096 gets the
    too-large message whatever else is wrong with it. *)
Theorem validate_image_accepts (img : Image) (format : option string) :
  (validate_image img format = (true, None) <->
   1 <= width img <= 4096 /\ 1 <= height img <= 4096 /\
   format_known format = true) /\
  ((validate_image img format).1 = false ->
   exists m, (validate_image img format).2 = Some m /\ m <> "") /\
  (4096 < width img \/ 4096 < height img ->
   validate_image img format =
     (false,
      Some "Изображение слишком большое. Максимальный размер: 4096x4096")).
Proof.
  rewrite validate_image_cases. cbv zeta.
  destruct (Z.gtb_spec (width img) 4096), (Z.gtb_spec (height img) 4096);
    simpl orb; cbv iota.
  1-3: split; [split; [discriminate | lia]|];
       split; [intros _; eexists; split; [reflexivity | discriminate] | reflexivity].
  destruct (Z.ltb_spec (width img) 1), (Z.ltb_spec (height img) 1);
    simpl orb; cbv iota.
  1-3: split; [split; [discriminate | lia]|];
       split; [intros _; eexists; split; [reflexivity | discriminate] | lia].
  destruct (format_known format); simpl negb; cbv iota.
  - split; [split; [intros _; lia | reflexivity]|].
    split; [discriminate | lia].
  - split; [split; [discriminate | intros (_ & _ & ?); discriminate]|].
    split; [intros _; eexists; split; [reflexivity | discriminate] | lia].
Qed.

(** X13.  For an image the validator accepts, the crop box of the icon
    encoder lies inside the image and is a square of at least one pixel, the
    fallback resolution is between 1 and 256, and neither icon path asks for
    more than the 4096 pixels the validator allows. *)
Theorem accepted_image_geometry (img : Image) (format : option string) :
  validate_image img format = (true, None) ->
  let base := Z.min (width img) (height img) in
  let '(l, t, r, b) := crop_box img in
  (0 <= l /\ 0 <= t /\ r <= width img /\ b <= height img) /\
  (r - l = base /\ b - t = base /\ 1 <= base <= 4096) /\
  1 <= Z.min 256 base <= 256 /\
  (forall sz, sz ∈ ico_sizes base -> 16 <= sz <= 256).
Proof.
  intros H. apply validate_image_accepted_bounds in H
    as ((Hw1 & Hw2) & (Hh1 & Hh2) & _).
  pose proof (crop_box_geometry img) as Hg. cbv zeta in *.
  destruct (crop_box img) as [[[l t] r] b].
  destruct Hg as (Hl & Ht & Hr & Hb & _ & _ & Hmw & Hmh).
  assert (0 <= l).
  { rewrite Hl. apply Z.div_pos; lia. }
  assert (0 <= t).
  { rewrite Ht. apply Z.div_pos; lia. }
  repeat split; try lia; eapply ico_sizes_bounds; eauto.
Qed.

(** A 300x200 PNG. *)
Lemma accepted_image_geometry_witness :
  let img := Toy.rgb 300 200 in
  validate_image img (Some "PNG") = (true, None) /\
  crop_box img = (50, 0, 250, 200) /\
  1 <= Z.min 256 (Z.min (width img) (height img)) <= 256.
Proof.
  cbv zeta.
  assert (H : validate_image (Toy.rgb 300 200) (Some "PNG") = (true, None))
    by reflexivity.
  pose proof (accepted_image_geometry (Toy.rgb 300 200) (Some "PNG") H) as Hg.
  change (crop_box (Toy.rgb 300 200)) with (50, 0, 250, 200) in Hg.
  cbv zeta beta iota in Hg. destruct Hg as (_ & _ & Hs & _).
  split; [exact H|]. split; [reflexivity | exact Hs].
Defined.

Lemma keyboard_loop_spec (k : Z) (l : list string) rows row rows' row' :
  keyboard_loop k l rows row = (rows', row') ->
  concat rows' ++ row' = concat rows ++ row ++ map mkKeyboardButton l /\
  (1 <= k -> Forall (fun r => Z.of_nat (length r) = k) rows ->
   Z.of_nat (length row) < k ->
   Forall (fun r => Z.of_nat (length r) = k) rows' /\
   Z.of_nat (length row') < k) /\
  (k <= 0 -> rows' = rows).
Proof.
  revert rows row. induction l as [|fmt l IH]; intros rows row; simpl.
  - intros [= <- <-]. rewrite app_nil_r. auto.
  - destruct (Z.eqb_spec (Z.of_nat (length (row ++ [mkKeyboardButton fmt]))) k)
      as [E|E]; intros H; apply IH in H as (Hc & Hfull & Hneg).
    + split; [|split].
      * rewrite Hc, concat_app. simpl. rewrite !app_nil_r, <- !app_assoc.
        reflexivity.
      * intros Hk Hrows Hrow. apply Hfull; [lia| |simpl; lia].
        apply Forall_app. split; [exact Hrows|]. by constructor.
      * intros Hk. rewrite length_app in E. simpl in E. lia.
    + split; [|split].
      * rewrite Hc, <- !app_assoc. reflexivity.
      * intros Hk Hrows Hrow. apply Hfull; [lia | exact Hrows |].
        rewrite length_app in *. simpl in *. lia.
      * exact Hneg.
Qed.

(** X14.  The keyboard holds one button per format, in the order given,
    followed by the button that finishes the selection, and nothing else.
    With a row size of at least 1 no row is empty, no row is longer than the
    row size and every row but the last is full; with a row size of 0 or
    less all the buttons are in one row. *)
Theorem keyboard_layout (row_size : Z) (formats : list string) :
  let kb := keyboard (create_formats_keyboard_sized row_size formats) in
  concat kb = map mkKeyboardButton (formats ++ ["✅ ГОТОВО"]) /\
  Forall (fun r => r <> []) kb /\
  (1 <= row_size ->
   Forall (fun r => Z.of_nat (length r) <= row_size) kb /\
   exists full last_row,
     kb = full ++ [last_row] /\
     Forall (fun r => Z.of_nat (length r) = row_size) full) /\
  (row_size <= 0 -> kb = [map mkKeyboardButton (formats ++ ["✅ ГОТОВО"])]) /\
  keyboard (create_formats_keyboard formats)
    = keyboard (create_formats_keyboard_sized 3 formats).
Proof.
  cbv zeta. unfold create_formats_keyboard_sized.
  destruct (keyboard_loop row_size (formats ++ ["✅ ГОТОВО"]) [] [])
    as [rows row] eqn:Hloop.
  apply keyboard_loop_spec in Hloop as (Hc & Hfull & Hneg).
  simpl in Hc. set (all := map mkKeyboardButton (formats ++ ["✅ ГОТОВО"])) in *.
  assert (all <> []) as Hall.
  { unfold all. rewrite map_app. simpl. by destruct (map _ formats). }
  split; [|split; [|split; [|split; [|reflexivity]]]].
  - destruct row; simpl; [by rewrite app_nil_r in Hc|].
    rewrite concat_app. simpl. by rewrite app_nil_r.
  - destruct (Z_le_gt_dec 1 row_size) as [Hk|Hk].
    + destruct (Hfull Hk ltac:(constructor) ltac:(simpl; lia)) as [Hrows _].
      assert (Forall (fun r : list KeyboardButton => r <> []) rows) as Hne.
      { eapply Forall_impl; [exact Hrows|]. intros r Hr ->. simpl in Hr. lia. }
      destruct row; simpl; [exact Hne|].
      apply Forall_app. split; [exact Hne|]. by constructor.
    + rewrite (Hneg ltac:(lia)). destruct row; simpl; [constructor|].
      by repeat constructor.
  - intros Hk.
    destruct (Hfull Hk ltac:(constructor) ltac:(simpl; lia)) as [Hrows Hrow].
    split.
    + assert (Forall (fun r : list KeyboardButton =>
                        Z.of_nat (length r) <= row_size) rows) as Hle.
      { eapply Forall_impl; [exact Hrows|]. simpl. lia. }
      destruct row; simpl; [exact Hle|].
      apply Forall_app. split; [exact Hle|]. constructor; [lia | constructor].
    + destruct row as [|b row]; simpl.
      * destruct rows as [|r rows _] using rev_ind.
        { simpl in Hc. congruence. }
        apply Forall_app in Hrows as [Hrows _]. eauto.
      * eauto.
  - intros Hk. rewrite (Hneg Hk) in *. simpl in Hc. subst row.
    destruct all; [congruence | reflexivity].
Qed.

(** The keyboard the bot shows: four full rows of three. *)
Lemma keyboard_layout_witness :
  let kb := keyboard (create_formats_keyboard (SUPPORTED_FORMATS config)) in
  1 <= KEYBOARD_ROW_SIZE config /\
  map (map text) kb =
    [["PNG"; "JPEG"; "WEBP"]; ["BMP"; "TIF"; "TIFF"];
     ["GIF"; "ICO"; "PDF"]; ["JP2"; "APNG"; "✅ ГОТОВО"]] /\
  Forall (fun r => Z.of_nat (length r) <= 3) kb.
Proof.
  cbv zeta. split; [vm_compute; discriminate|]. split; [reflexivity|].
  destruct (keyboard_layout 3 (SUPPORTED_FORMATS config)) as (_ & _ & H & _).
  destruct (H ltac:(lia)) as [Hle _]. exact Hle.
Defined.

Lemma str_in_elem_of (x : string) (l : list string) :
  str_in x l = true <-> x ∈ l.
Proof.
  unfold str_in. rewrite existsb_exists. split.
  - intros (y & Hy & E). apply String.eqb_eq in E. subst.
    by apply list_elem_of_In.
  - intros H. exists x. split; [by apply list_elem_of_In | apply String.eqb_refl].
Qed.

Lemma supported_is_closed_set : SUPPORTED_FORMATS config = closed_set.
Proof. reflexivity. Qed.

(** X15.  The formats the bot offers are exactly the keys of the format
    table, without repetition: each offered format, and no other name, has a
    container and a file name, and the conversion of an offered format never
    fails as unsupported. *)
Theorem supported_formats_convertible (pil : PIL) (img : Image)
    (format_name : string) (w : World) :
  (format_name ∈ SUPPORTED_FORMATS config <-> is_Some (FORMAT_MAP !! format_name)) /\
  (format_name ∈ SUPPORTED_FORMATS config <-> is_Some (filename format_name)) /\
  NoDup (SUPPORTED_FORMATS config) /\
  (format_name ∈ SUPPORTED_FORMATS config ->
   (convert_to_format pil img format_name w).1 <>
     Returned (false, BytesIO_new, "Неподдерживаемый формат: " +:+ format_name)).
Proof.
  rewrite supported_is_closed_set.
  assert (format_name ∈ closed_set <-> is_Some (FORMAT_MAP !! format_name)) as Hk.
  { split; [apply FORMAT_MAP_keys|].
    intros Hs. destruct (decide (format_name ∈ closed_set)) as [|Hn]; [done|].
    rewrite (FORMAT_MAP_closed _ Hn) in Hs. by destruct Hs. }
  split; [exact Hk|]. split; [|split].
  - rewrite Hk. unfold filename.
    destruct (FORMAT_MAP !! format_name) as [[pf ext]|]; split;
      intros [x Hx]; try discriminate; eauto.
  - compute_done.
  - intros Hin. apply Hk in Hin as [[pf ext] Hmap].
    unfold convert_to_format, try_except, convert_body.
    rewrite Hmap. unfold bind at 1. simpl.
    match goal with |- context [bind ?m ?k ?w0] =>
      destruct (m w0) as [[b|e] w1] eqn:Hm;
      [rewrite (bind_returned _ _ _ _ _ Hm)
      |rewrite (bind_raised _ _ _ _ _ Hm)]
    end.
    + destruct b; simpl; discriminate.
    + simpl. discriminate.
Qed.

Lemma selected_after_cases (selected : list string) (text : string) :
  ((text ∈ SUPPORTED_FORMATS config) /\ (text ∉ selected) /\
   selected_after selected text = selected ++ [text]) \/
  (((text ∉ SUPPORTED_FORMATS config) \/ (text ∈ selected)) /\
   selected_after selected text = selected).
Proof.
  unfold selected_after, formats_choice.
  destruct (String.eqb_spec text "✅ ГОТОВО") as [->|_].
  { right. split; [left; compute_done | reflexivity]. }
  destruct (str_in text (SUPPORTED_FORMATS config)) eqn:Hs; simpl negb;
    cbv iota.
  - apply str_in_elem_of in Hs.
    destruct (str_in text selected) eqn:Hin; simpl negb; cbv iota.
    + apply str_in_elem_of in Hin. right. auto.
    + left. split; [exact Hs|]. split; [|reflexivity].
      rewrite <- str_in_elem_of, Hin. discriminate.
  - right. split; [|reflexivity]. left.
    rewrite <- str_in_elem_of, Hs. discriminate.
Qed.

Lemma selection_fold (texts : list string) (selected : list string) :
  NoDup selected ->
  (forall fmt, fmt ∈ selected -> fmt ∈ SUPPORTED_FORMATS config) ->
  let sel := fold_left selected_after texts selected in
  NoDup sel /\
  (forall fmt, fmt ∈ sel <->
     fmt ∈ selected \/ (fmt ∈ texts /\ fmt ∈ SUPPORTED_FORMATS config)).
Proof.
  revert selected. induction texts as [|t texts IH]; intros selected Hnd Hsub;
    simpl.
  - split; [exact Hnd|]. intros fmt. rewrite elem_of_nil. tauto.
  - destruct (selected_after_cases selected t)
      as [(Hs & Hn & ->)|(Hor & ->)].
    + destruct (IH (selected ++ [t])) as [Hnd' Hmem].
      * apply NoDup_app. split; [exact Hnd|]. split; [|apply NoDup_singleton].
        intros x Hx H. apply list_elem_of_singleton in H. by subst.
      * intros fmt [?|H]%elem_of_app; [auto|].
        apply list_elem_of_singleton in H. by subst.
      * split; [exact Hnd'|]. intros fmt. rewrite Hmem, elem_of_app,
          list_elem_of_singleton, elem_of_cons.
        destruct (decide (fmt = t)) as [->|Hne];
          [pose proof (eq_refl t) | ]; tauto.
    + destruct (IH selected Hnd Hsub) as [Hnd' Hmem].
      split; [exact Hnd'|]. intros fmt. rewrite Hmem, elem_of_cons.
      destruct (decide (fmt = t)) as [->|Hne];
          [pose proof (eq_refl t) | ]; tauto.
Qed.

(** X16.  Whatever texts [formats_handler] is given one after another
    (stripped and in upper case), starting from the empty selection that
    [photo_handler] stores, the selection never holds a format twice and
    holds exactly the offered formats among the texts seen: at most eleven,
    never the finishing button, each with an entry in the format table.  So
    does, in particular, the selection a conversion is started on. *)
Theorem selection_invariant (texts : list string) :
  let sel := fold_left selected_after texts [] in
  NoDup sel /\
  (forall fmt, fmt ∈ sel <-> fmt ∈ texts /\ fmt ∈ SUPPORTED_FORMATS config) /\
  (length sel <= 11)%nat /\
  ("✅ ГОТОВО" ∉ sel) /\
  Forall (fun fmt => is_Some (FORMAT_MAP !! fmt)) sel.
Proof.
  cbv zeta.
  destruct (selection_fold texts [] ltac:(constructor)) as [Hnd Hmem].
  { intros fmt H. by apply elem_of_nil in H. }
  assert (forall fmt, fmt ∈ fold_left selected_after texts [] ->
                      fmt ∈ SUPPORTED_FORMATS config) as Hsub.
  { intros fmt H. apply Hmem in H as [H|[_ H]]; [by apply elem_of_nil in H | exact H]. }
  split; [exact Hnd|]. split; [|split; [|split]].
  - intros fmt. rewrite Hmem, elem_of_nil. tauto.
  - change 11%nat with (length (SUPPORTED_FORMATS config)).
    apply submseteq_length, NoDup_submseteq; assumption.
  - intros H. apply Hsub in H. revert H. compute_done.
  - apply Forall_forall. intros fmt H. apply FORMAT_MAP_keys.
    rewrite <- supported_is_closed_set. auto.
Qed.

(** X17.  The size middleware stops a message exactly when the file it
    looks at, the last photo size if the message has photos and otherwise the
    document, has a known size above 20 MiB; a file of exactly 20 MiB or of
    unknown size passes, and the document of a message with photos is not
    looked at.  The reply is always the same text. *)
Theorem middleware_threshold (event : Event) :
  (FileSizeMiddleware event = CallHandler \/
   FileSizeMiddleware event
     = Reject "⛔ Файл слишком большой. Максимальный размер: 20 МБ") /\
  (FileSizeMiddleware event = CallHandler <->
   forall f n, checked_file event = Some f -> file_size f = Some n ->
               n <= 20971520) /\
  (forall ps p, photo event = Some (ps ++ [p]) -> checked_file event = Some p).
Proof.
  assert (forall f, over_limit f = false <->
                    forall n, file_size f = Some n -> n <= 20971520) as Hlim.
  { intros [[n|]]; unfold over_limit; simpl.
    - change (MAX_FILE_SIZE config) with 20971520.
      destruct (Z.eqb_spec n 0) as [E0|E0], (Z.gtb_spec n 20971520) as [E1|E1];
        simpl; split; intros H.
      all: try discriminate H; try reflexivity.
      all: try (intros m [= <-]; lia).
      all: specialize (H n eq_refl); lia.
    - split; [intros _ n; discriminate | reflexivity]. }
  assert (forall o : option FileInfo,
            let v := match o with
                     | Some f => if over_limit f then Reject too_large_reply
                                 else CallHandler
                     | None => CallHandler
                     end in
            (v = CallHandler \/ v = Reject too_large_reply) /\
            (v = CallHandler <->
             forall f n, o = Some f -> file_size f = Some n -> n <= 20971520))
    as Hopt.
  { intros [f|]; simpl.
    - destruct (over_limit f) eqn:E; (split; [auto|]); split; try discriminate;
        try reflexivity.
      + intros H. exfalso. assert (over_limit f = false) as E'.
        { apply Hlim. intros n. apply H. reflexivity. }
        congruence.
      + intros _ g n [= <-]. by apply Hlim.
    - split; [auto|]. split; [discriminate | reflexivity]. }
  split; [|split].
  - unfold FileSizeMiddleware.
    destruct (photo event) as [[|p ps]|]; apply Hopt.
  - unfold FileSizeMiddleware, checked_file.
    destruct (photo event) as [[|p ps]|]; apply Hopt.
  - intros ps p H. unfold checked_file. rewrite H.
    destruct ps as [|q ps]; [reflexivity|].
    change (last ((q :: ps) ++ [p]) = Some p). apply last_snoc.
Qed.

(** ** Properties: the conversion handler *)

Lemma does_ret P {A} (a : A) : does P (Bot.ret a).
Proof. intros s. exists []. simpl. by rewrite app_nil_r. Qed.

Lemma does_raise P {A} e : does P (@Bot.raise A e).
Proof. intros s. exists []. simpl. by rewrite app_nil_r. Qed.

Lemma does_set P m : does P (Bot.set_conversion_msg m).
Proof. intros s. exists []. simpl. by rewrite app_nil_r. Qed.

Lemma does_get P : does P Bot.get_conversion_msg.
Proof. intros s. exists []. simpl. by rewrite app_nil_r. Qed.

Lemma does_lift P {A} (m : M A) : does P (Bot.lift m).
Proof.
  intros s. exists []. unfold Bot.lift. destruct (m (engine s)). simpl.
  by rewrite app_nil_r.
Qed.

Lemma does_perform P {A} ev (r : list Sent -> Outcome A) :
  P ev = true -> does P (Bot.perform ev r).
Proof. intros H s. exists [ev]. simpl. by rewrite H. Qed.

Lemma does_bind P {A C} (m : Bot.B A) (k : A -> Bot.B C) :
  does P m -> (forall a, does P (k a)) -> does P (Bot.bind m k).
Proof.
  intros Hm Hk s. unfold Bot.bind. destruct (Hm s) as (r1 & H1 & L1).
  destruct (m s) as [[a|e] s1]; simpl in *.
  - destruct (Hk a s1) as (r2 & H2 & L2). exists (r1 ++ r2).
    rewrite H2, H1, forallb_app, L1, L2. by rewrite app_assoc.
  - eauto.
Qed.

Lemma does_try_except P {A} (m : Bot.B A) (h : Exception -> Bot.B A) :
  does P m -> (forall e, does P (h e)) -> does P (Bot.try_except m h).
Proof.
  intros Hm Hh s. unfold Bot.try_except. destruct (Hm s) as (r1 & H1 & L1).
  destruct (m s) as [[a|e] s1]; simpl in *.
  - eauto.
  - destruct (Hh e s1) as (r2 & H2 & L2). exists (r1 ++ r2).
    rewrite H2, H1, forallb_app, L1, L2. by rewrite app_assoc.
Qed.

Ltac does_tac :=
  repeat first
    [ progress intros
    | apply does_ret | apply does_raise | apply does_set | apply does_get
    | apply does_lift
    | apply does_perform; reflexivity
    | apply does_bind | apply does_try_except
    | match goal with |- does _ (if ?b then _ else _) => destruct b end
    | match goal with |- does _ (match ?x with _ => _ end) => destruct x end ].

Lemma conversion_step_does pil tg img total i fmt successful failed :
  does not_clear (conversion_step pil tg img total i fmt successful failed).
Proof.
  unfold conversion_step, edit_text, reply, reply_document.
  apply does_bind; [does_tac|]. intros _.
  apply does_bind; [does_tac|]. intros [[success output_buffer] error_msg].
  does_tac.
Qed.

Lemma conversion_loop_does pil tg img total i formats successful failed :
  does not_clear (conversion_loop pil tg img total i formats successful failed).
Proof.
  revert i successful failed.
  induction formats as [|fmt rest IH]; intros i successful failed; simpl.
  - apply does_ret.
  - apply does_bind; [apply conversion_step_does | intros; apply IH].
Qed.

Lemma bot_bind_returned {A C} (m : Bot.B A) (k : A -> Bot.B C) s a s1 :
  m s = (Returned a, s1) -> Bot.bind m k s = k a s1.
Proof. intros H. unfold Bot.bind. rewrite H. reflexivity. Qed.

Lemma bot_bind_raised {A C} (m : Bot.B A) (k : A -> Bot.B C) s e s1 :
  m s = (Raised e, s1) -> Bot.bind m k s = (Raised e, s1).
Proof. intros H. unfold Bot.bind. rewrite H. reflexivity. Qed.

(** X18.  Once the handler has announced the conversion, it ends by
    clearing the conversation state, exactly once and as the last thing it
    does, whatever raises in between: the decoder, the converter, Telegram
    while the documents and messages are sent, or the messages that report
    the failure. *)
Theorem session_always_cleared (pil : PIL) (tg : Telegram) (data : Data)
    (s : BotWorld) (fmt : string) (fmts : list string) (b : byte)
    (bs : list byte) (m : nat) :
  data_selected_formats data = Some (fmt :: fmts) ->
  data_photo_bytes data = Some (b :: bs) ->
  tg_reply tg (sent s) (start_text (fmt :: fmts)) true = Returned m ->
  exists rest,
    sent (handle_conversion_completion pil tg data s).2 =
      sent s ++ SentReply (start_text (fmt :: fmts)) true :: rest ++ [StateClear] /\
    forallb not_clear rest = true.
Proof.
  intros Hsel Hphoto Hreply. unfold handle_conversion_completion.
  rewrite Hsel, Hphoto.
  change (default [] (Some (fmt :: fmts))) with (fmt :: fmts). cbv iota.
  fold (start_text (fmt :: fmts)).
  rewrite (bot_bind_returned _ _ s m
             (mkBotWorld (engine s)
                (sent s ++ [SentReply (start_text (fmt :: fmts)) true])
                (conversion_msg s)))
    by (unfold reply_remove, Bot.perform; by rewrite Hreply).
  rewrite (bot_bind_returned _ _ _ tt
             (mkBotWorld (engine s)
                (sent s ++ [SentReply (start_text (fmt :: fmts)) true]) m))
    by reflexivity.
  unfold Bot.try_finally.
  match goal with |- context [Bot.try_except ?body ?h ?s0] =>
    assert (does not_clear (Bot.try_except body h)) as Hdoes
  end.
  { unfold image_open, edit_text, reply. apply does_try_except.
    - apply does_bind; [does_tac|]. intros img.
      apply does_bind; [apply conversion_loop_does|]. does_tac.
    - does_tac. }
  match goal with |- context [Bot.try_except ?body ?h ?s0] =>
    destruct (Hdoes s0) as (rest & Hrest & Hnc);
    destruct (Bot.try_except body h s0) as [r s1]
  end.
  simpl in Hrest. exists rest. split; [|exact Hnc].
  unfold state_clear, Bot.perform.
  destruct (tg_state_clear tg (sent s1)); simpl; rewrite Hrest;
    rewrite <- !app_assoc; reflexivity.
Qed.

(** Two failing message operations do not keep the state from being
    cleared. *)
Lemma session_always_cleared_witness :
  let data := mkData (Some ["PNG"; "XYZ"]) (Some [x01]) in
  data_selected_formats data = Some ["PNG"; "XYZ"] /\
  data_photo_bytes data = Some [x01] /\
  tg_reply mute_telegram (sent bot_start) (start_text ["PNG"; "XYZ"]) true
    = Returned 0%nat /\
  exists rest,
    sent (handle_conversion_completion Toy.ok mute_telegram data bot_start).2 =
      SentReply "🔄 Начинаю конвертацию в 2 формат(ов)..." true
        :: rest ++ [StateClear] /\
    forallb not_clear rest = true.
Proof.
  cbv zeta. split; [reflexivity|]. split; [reflexivity|]. split; [reflexivity|].
  exact (session_always_cleared Toy.ok mute_telegram
           (mkData (Some ["PNG"; "XYZ"]) (Some [x01])) bot_start
           "PNG" ["XYZ"] x01 [] 0%nat eq_refl eq_refl eq_refl).
Defined.

(** ** Properties: the loop of the handler and the batch of the converter *)

Lemma bot_bind_inv {A C} (m : Bot.B A) (k : A -> Bot.B C) s c s' :
  Bot.bind m k s = (Returned c, s') ->
  exists a s1, m s = (Returned a, s1) /\ k a s1 = (Returned c, s').
Proof.
  unfold Bot.bind. destruct (m s) as [[a|e] s1]; [eauto | discriminate].
Qed.

Lemma keeps_engine_ret {A} (a : A) : keeps_engine (Bot.ret a).
Proof. intros s. reflexivity. Qed.

Lemma keeps_engine_raise {A} e : keeps_engine (@Bot.raise A e).
Proof. intros s. reflexivity. Qed.

Lemma keeps_engine_set m : keeps_engine (Bot.set_conversion_msg m).
Proof. intros s. reflexivity. Qed.

Lemma keeps_engine_get : keeps_engine Bot.get_conversion_msg.
Proof. intros s. reflexivity. Qed.

Lemma keeps_engine_perform {A} ev (r : list Sent -> Outcome A) :
  keeps_engine (Bot.perform ev r).
Proof. intros s. reflexivity. Qed.

Lemma keeps_engine_bind {A C} (m : Bot.B A) (k : A -> Bot.B C) :
  keeps_engine m -> (forall a, keeps_engine (k a)) ->
  keeps_engine (Bot.bind m k).
Proof.
  intros Hm Hk s. unfold Bot.bind. specialize (Hm s).
  destruct (m s) as [[a|e] s1]; simpl in *; [|exact Hm].
  rewrite Hk. exact Hm.
Qed.

Lemma keeps_engine_try_except {A} (m : Bot.B A) (h : Exception -> Bot.B A) :
  keeps_engine m -> (forall e, keeps_engine (h e)) ->
  keeps_engine (Bot.try_except m h).
Proof.
  intros Hm Hh s. unfold Bot.try_except. specialize (Hm s).
  destruct (m s) as [[a|e] s1]; simpl in *; [exact Hm|].
  rewrite Hh. exact Hm.
Qed.

Ltac keeps_engine_tac :=
  repeat first
    [ progress intros
    | apply keeps_engine_ret | apply keeps_engine_raise
    | apply keeps_engine_set | apply keeps_engine_get
    | apply keeps_engine_perform
    | apply keeps_engine_bind | apply keeps_engine_try_except
    | match goal with |- keeps_engine (match ?x with _ => _ end) => destruct x end ].

(** One round of the loop that returns: the converter has run
    [convert_to_format] once, and the format is counted as a success, which
    takes a successful conversion, or listed as a failure. *)
Lemma conversion_step_returned pil tg img total i fmt s0 f0 st s f st' :
  conversion_step pil tg img total i fmt s0 f0 st = (Returned (s, f), st') ->
  exists r,
    convert_to_format pil img fmt (engine st) = (Returned r, engine st') /\
    ((s = S s0 /\ f = f0 /\ r.1.1 = true) \/
     (s = s0 /\ exists entry, f = f0 ++ [entry] /\ entry_of fmt entry)).
Proof.
  unfold conversion_step. intros H.
  apply bot_bind_inv in H as ([] & s1 & Hprog & H).
  assert (engine s1 = engine st) as He1.
  { match type of Hprog with ?m st = _ =>
      assert (keeps_engine m) as Hk
        by (unfold edit_text, reply; keeps_engine_tac);
      specialize (Hk st); by rewrite Hprog in Hk
    end. }
  apply bot_bind_inv in H as (r & s2 & Hconv & H).
  unfold Bot.lift in Hconv.
  destruct (convert_to_format pil img fmt (engine s1)) as [o w2] eqn:Hc.
  injection Hconv as -> <-. rewrite He1 in Hc.
  destruct r as [[success output_buffer] error_msg].
  exists (success, output_buffer, error_msg).
  destruct success.
  - match type of H with ?m ?s2 = _ =>
      assert (keeps_engine m) as Hk
        by (unfold reply_document; keeps_engine_tac);
      specialize (Hk s2); rewrite H in Hk; simpl in Hk
    end.
    rewrite Hk. split; [exact Hc|].
    unfold Bot.try_except in H.
    match type of H with context [Bot.bind ?m ?k ?s2] =>
      destruct (Bot.bind m k s2) as [[[s' f']|e] s3] eqn:Hsend
    end.
    + injection H as <- <- <-.
      apply bot_bind_inv in Hsend as (ext & s4 & _ & Hsend).
      apply bot_bind_inv in Hsend as ([] & s5 & _ & Hsend).
      unfold Bot.ret in Hsend. injection Hsend as <- <- _. auto.
    + unfold Bot.ret in H. injection H as <- <- <-. right.
      split; [reflexivity|]. eexists. split; [reflexivity|].
      by exists "ошибка отправки".
  - unfold Bot.ret in H. injection H as <- <- <-. simpl.
    split; [exact Hc|]. right. split; [reflexivity|].
    eexists. split; [reflexivity|]. by exists error_msg.
Qed.

(** X19.  When the loop of the handler runs to its end, the converter has
    done exactly what the batch over the selected formats does, in the same
    order; every format is either counted as a success or listed once among
    the failures, under its own name and in the order of the selection; and
    no more successes are counted than conversions succeeded. *)
Theorem conversion_loop_accounts (pil : PIL) (tg : Telegram) (img : Image)
    (total i : nat) (formats : list string) (s0 : nat) (f0 : list string)
    (st : BotWorld) (s : nat) (f : list string) (st' : BotWorld) :
  conversion_loop pil tg img total i formats s0 f0 st = (Returned (s, f), st') ->
  (s + length f = s0 + length f0 + length formats)%nat /\
  exists results entries listed,
    convert_batch pil img formats (engine st) = (Returned results, engine st') /\
    (s - s0 <= successes results)%nat /\ (s0 <= s)%nat /\
    f = f0 ++ entries /\
    sublist listed formats /\ Forall2 entry_of listed entries.
Proof.
  revert i s0 f0 st s f st'. induction formats as [|fmt rest IH];
    intros i s0 f0 st s f st'; simpl.
  - unfold Bot.ret. intros [= <- <- <-]. split; [lia|].
    exists [], [], []. rewrite app_nil_r.
    repeat split; try reflexivity; try lia; constructor.
  - intros H. apply bot_bind_inv in H as ([s1 f1] & st1 & Hstep & H).
    simpl in H. apply IH in H
      as (Hcount & results & entries & listed & Hbatch & Hsucc & Hle & -> & Hsub & Hent).
    apply conversion_step_returned in Hstep as (r & Hconv & Hcase).
    rewrite (bind_returned _ _ _ _ _ Hconv), (bind_returned _ _ _ _ _ Hbatch).
    destruct Hcase as [(-> & -> & Hr)|(-> & entry & -> & He)].
    + split; [lia|]. exists (r :: results), entries, listed.
      split; [reflexivity|]. destruct r as [[[] ?] ?]; [|discriminate].
      simpl. split; [lia|]. split; [lia|]. split; [reflexivity|].
      split; [by apply sublist_cons | exact Hent].
    + rewrite !length_app in *. simpl in *. split; [lia|].
      exists (r :: results), (entry :: entries), (fmt :: listed).
      split; [reflexivity|]. rewrite <- app_assoc. simpl.
      split; [destruct r as [[[] ?] ?]; simpl; lia|]. split; [lia|].
      split; [reflexivity|]. split; [by apply sublist_skip | by constructor].
Qed.

(** The two formats of the example: one converted and sent, one refused. *)
Lemma conversion_loop_accounts_witness :
  exists st',
    conversion_loop Toy.ok toy_telegram (Toy.rgb 300 200) 2 1 ["PNG"; "XYZ"]
      0%nat [] bot_start
      = (Returned (1%nat, ["XYZ: Неподдерживаемый формат: XYZ"]), st') /\
    exists results,
      convert_batch Toy.ok (Toy.rgb 300 200) ["PNG"; "XYZ"] (engine bot_start)
        = (Returned results, engine st') /\
      successes results = 1%nat.
Proof.
  eexists. split; [vm_compute; reflexivity|].
  refine (let H := conversion_loop_accounts Toy.ok toy_telegram
                     (Toy.rgb 300 200) 2 1 ["PNG"; "XYZ"] 0%nat [] bot_start
                     _ _ _ eq_refl in _).
  destruct H as (_ & results & _ & _ & Hbatch & _).
  exists results. split; [exact Hbatch|].
  vm_compute in Hbatch. injection Hbatch as <-. reflexivity.
Defined.

(** One round of the loop raises only in the reply that replaces a
    progress message that could not be edited; nothing has been converted
    in that round. *)
Lemma conversion_step_raised pil tg img total i fmt s0 f0 st e st' :
  conversion_step pil tg img total i fmt s0 f0 st = (Raised e, st') ->
  engine st' = engine st /\
  exists m progress e',
    sent st' = sent st ++ [SentEdit m progress; SentReply progress false] /\
    tg_edit_text tg (sent st) m progress = Raised e' /\
    tg_reply tg (sent st ++ [SentEdit m progress]) progress false = Raised e.
Proof.
  unfold conversion_step.
  set (progress := "🔄 Конвертирую в " +:+ fmt +:+ "... (" +:+ pretty i
                   +:+ "/" +:+ pretty total +:+ ")").
  unfold Bot.bind at 1.
  destruct (Bot.try_except (edit_text tg progress)
              (fun _ => m <-- reply tg progress ;; Bot.set_conversion_msg m) st)
    as [[[]|e1] s1] eqn:Hprog.
  - unfold Bot.bind at 1. unfold Bot.lift.
    destruct (convert_to_format_returns pil img fmt (engine s1))
      as (r & w2 & Hc).
    rewrite Hc. destruct r as [[[] output_buffer] error_msg]; [|discriminate].
    unfold Bot.try_except.
    match goal with |- context [Bot.bind ?m ?k ?s2] =>
      destruct (Bot.bind m k s2) as [[?|?] ?]
    end; discriminate.
  - intros [= <- <-]. revert Hprog.
    unfold Bot.try_except, edit_text, Bot.bind, Bot.get_conversion_msg,
      Bot.perform, reply, Bot.set_conversion_msg. simpl.
    destruct (tg_edit_text tg (sent st) (conversion_msg st) progress)
      as [[]|e'] eqn:He; [discriminate|].
    destruct (tg_reply tg (sent st ++ [SentEdit (conversion_msg st) progress])
                progress false) as [m|e2] eqn:Hr; [discriminate|].
    intros [= -> <-]. simpl. split; [reflexivity|].
    exists (conversion_msg st), progress, e'.
    rewrite <- app_assoc. auto.
Qed.

(** X20.  The loop of the handler stops before its end only when the
    progress message of some format could neither be edited nor sent as a
    new message: the formats before that one have been converted, as the
    batch over them does, and that format and the ones after it have not. *)
Theorem conversion_loop_cut_short (pil : PIL) (tg : Telegram) (img : Image)
    (total i : nat) (formats : list string) (s0 : nat) (f0 : list string)
    (st : BotWorld) (e : Exception) (st' : BotWorld) :
  conversion_loop pil tg img total i formats s0 f0 st = (Raised e, st') ->
  exists converted fmt rest results history m progress e',
    formats = converted ++ fmt :: rest /\
    convert_batch pil img converted (engine st) = (Returned results, engine st') /\
    sent st' = history ++ [SentEdit m progress; SentReply progress false] /\
    tg_edit_text tg history m progress = Raised e' /\
    tg_reply tg (history ++ [SentEdit m progress]) progress false = Raised e.
Proof.
  revert i s0 f0 st. induction formats as [|fmt rest IH];
    intros i s0 f0 st; simpl; [discriminate|].
  unfold Bot.bind.
  destruct (conversion_step pil tg img total i fmt s0 f0 st)
    as [[[s1 f1]|e1] st1] eqn:Hstep.
  - intros H. simpl in H. apply IH in H
      as (converted & fmt' & rest' & results & history & m & progress & e'
          & -> & Hbatch & Hsent & Hedit & Hreply).
    apply conversion_step_returned in Hstep as (r & Hconv & _).
    exists (fmt :: converted), fmt', rest', (r :: results), history, m,
      progress, e'.
    split; [reflexivity|]. split; [|auto]. simpl.
    rewrite (bind_returned _ _ _ _ _ Hconv), (bind_returned _ _ _ _ _ Hbatch).
    reflexivity.
  - intros [= <- <-]. apply conversion_step_raised in Hstep
      as (Heng & m & progress & e' & Hsent & Hedit & Hreply).
    exists [], fmt, rest, [], (sent st), m, progress, e'.
    split; [reflexivity|]. split; [simpl; unfold ret; by rewrite Heng|]. auto.
Qed.

(** With no way to report progress, PNG and XYZ are not converted. *)
Lemma conversion_loop_cut_short_witness :
  exists st',
    conversion_loop Toy.ok mute_telegram (Toy.rgb 300 200) 2 1 ["PNG"; "XYZ"]
      0%nat [] bot_start = (Raised "network error", st') /\
    calls (engine st') = [] /\
    exists converted fmt rest,
      ["PNG"; "XYZ"] = converted ++ fmt :: rest /\
      exists results,
        convert_batch Toy.ok (Toy.rgb 300 200) converted (engine bot_start)
          = (Returned results, engine st').
Proof.
  eexists. split; [vm_compute; reflexivity|]. split; [reflexivity|].
  refine (let H := conversion_loop_cut_short Toy.ok mute_telegram
                     (Toy.rgb 300 200) 2 1 ["PNG"; "XYZ"] 0%nat [] bot_start
                     _ _ eq_refl in _).
  destruct H as (converted & fmt & rest & results & _ & _ & _ & _ & Hf & Hb & _).
  exists converted, fmt, rest. split; [exact Hf|]. exists results. exact Hb.
Defined.

(** ** Properties: failures and the batch *)





(** ** Properties: the handler without a selection or without the photo *)

(** X21.  Without a selection, missing or empty, the handler only says so
    and keeps the conversation state, so that the user can go on selecting;
    with a selection but without the bytes of the photo, missing or empty,
    it says so and clears the state, unless the reply itself raises.  In
    neither case is anything decoded or converted. *)
Theorem handler_without_input (pil : PIL) (tg : Telegram) (data : Data)
    (s : BotWorld) :
  let r := handle_conversion_completion pil tg data s in
  (default [] (data_selected_formats data) = [] ->
   engine r.2 = engine s /\
   sent r.2 = sent s ++ [SentReply nothing_selected_text false]) /\
  (default [] (data_selected_formats data) <> [] ->
   data_photo_bytes data = None \/ data_photo_bytes data = Some [] ->
   engine r.2 = engine s /\
   match tg_reply tg (sent s) photo_lost_text false with
   | Returned _ =>
       sent r.2 = sent s ++ [SentReply photo_lost_text false; StateClear]
   | Raised e =>
       sent r.2 = sent s ++ [SentReply photo_lost_text false] /\
       r.1 = Raised e
   end).
Proof.
  cbv zeta. unfold handle_conversion_completion. split.
  - intros ->. unfold Bot.bind, reply, Bot.perform, Bot.ret.
    destruct (tg_reply tg (sent s) _ false); simpl; auto.
  - intros Hsel Hphoto.
    destruct (default [] (data_selected_formats data)) as [|fmt fmts];
      [done|].
    destruct Hphoto as [Hp|Hp]; rewrite Hp;
      unfold Bot.bind, reply, Bot.perform, state_clear; fold photo_lost_text;
      destruct (tg_reply tg (sent s) photo_lost_text false); simpl;
      rewrite <- ?app_assoc; auto.
Qed.

(** A conversation with a photo stored and nothing selected. *)
Lemma handler_without_input_witness :
  let data := mkData (Some []) (Some [x01]) in
  let r := handle_conversion_completion Toy.ok toy_telegram data bot_start in
  default [] (data_selected_formats data) = [] /\
  engine r.2 = engine bot_start /\
  sent r.2 = sent bot_start ++ [SentReply nothing_selected_text false].
Proof.
  cbv zeta. split; [reflexivity|].
  apply (handler_without_input Toy.ok toy_telegram
           (mkData (Some []) (Some [x01])) bot_start).
  reflexivity.
Defined.
